(** * The provider generator (gen/generator.go), embedded in Rocq

    The generator reads YAML definitions, augments them, renders every
    template against every definition and merges the rendered text into the
    files generated by an earlier run.  This development embeds the functions
    of [gen/generator.go] and proves the properties stated about them.

    Conventions of the embedding.
    - A Go [string] is a sequence of bytes: Rocq's [string].  Go [int]
      values are in [Z]; lengths and indexes never leave the range of the
      machine integers here, so no wrap-around is written.
    - [unicode.IsUpper], [unicode.IsSpace], [strings.ToLower] and
      [strings.Title] are given on bytes, with the ASCII letters and the
      ASCII white space; they agree with Go's functions on ASCII text.  The
      tables of package [unicode] for the other characters are not part of
      this development: a property that depends on what these functions do
      is stated for ASCII text, [isASCII].
    - A [bufio.Scanner] with the default split function and the default
      buffer is a state machine, [Scan]: the input is cut at every line feed
      and one trailing carriage return is dropped from each line.  The buffer
      grows to [MaxScanTokenSize] bytes; at a line that does not fit, [Scan]
      returns false with [ErrTooLong], which the generator never reads, so a
      loop over the lines ends there without a word.
    - The two constant patterns of [renderTemplate] are given by the matcher
      they denote.  In [getTemplateSection] the section name is spliced into
      the pattern.  For a name of ASCII bytes none of which is a regexp
      metacharacter the pattern denotes the name as literal text, and that
      is the matcher given here.  For any other name [regexp.MustCompile]
      panics or yields a matcher for another language; [MustCompile] is
      [None] there, and a run that reaches such a pattern has the outcome
      [Uninterpreted].
    - [text/template] and [yaml.v3] are libraries outside the repository: the
      parser and the executor of templates and the YAML decoder are
      variables of the sections that use them.
    - The file system is a finite map from paths to the contents of regular
      files; directories exist where files lie below them, so [os.MkdirAll]
      has nothing to add.  Every regular file can be read and written, and
      the file system sets no limit to the length of a name; [os.Create]
      fails where a regular file stands in the place of a directory of the
      path, or a directory in the place of the file.  A
      file has one key, the path as the generator spells it.  An output path
      is opened as it is spelled and created under the path that
      [filepath.Join] returns for it; the two name one file when the path is
      in normal form ([normalPath]), and a run that reaches another output
      path has the outcome [Uninterpreted].
    - A process that stops in [log.Fatalf] is the outcome [Fatal]. *)

From Stdlib Require Import ZArith Ascii String Floats.PrimFloat.
From stdpp Require Import base list gmap strings sorting.
From Equations Require Import Equations.

Local Open Scope Z_scope.

(** ** Bytes and strings: the parts of Go's [strings] and [unicode] used *)

Definition LF : ascii := "010"%char.
Definition CR : ascii := "013"%char.

(** [len(s)] *)
Definition len (s : string) : Z := Z.of_nat (String.length s).

Fixpoint string_take (n : nat) (s : string) : string :=
  match n, s with
  | S n', String c rest => String c (string_take n' rest)
  | _, _ => ""
  end.

Fixpoint string_drop (n : nat) (s : string) : string :=
  match n, s with
  | S n', String _ rest => string_drop n' rest
  | _, _ => s
  end.

(** [s[i:]] and [s[:j]], for indexes within the string. *)
Definition slice_from (s : string) (i : Z) : string := string_drop (Z.to_nat i) s.
Definition slice_to (s : string) (j : Z) : string := string_take (Z.to_nat j) s.

(** [unicode.IsUpper] on a byte. *)
Definition IsUpper (c : ascii) : bool :=
  let n := nat_of_ascii c in (65 <=? n)%nat && (n <=? 90)%nat.

Definition lower_byte (c : ascii) : ascii :=
  if IsUpper c then ascii_of_nat (nat_of_ascii c + 32) else c.

(** [strings.ToLower] *)
Fixpoint ToLower (s : string) : string :=
  match s with
  | "" => ""
  | String c rest => String (lower_byte c) (ToLower rest)
  end.

(** [strings.IndexFunc]: the index of the first byte satisfying [f], or -1. *)
Fixpoint IndexFunc (s : string) (f : ascii → bool) : Z :=
  match s with
  | "" => -1
  | String c rest =>
      if f c then 0
      else let i := IndexFunc rest f in if i <? 0 then -1 else i + 1
  end.

(** [strings.Join] *)
Fixpoint Join (elems : list string) (sep : string) : string :=
  match elems with
  | [] => ""
  | [e] => e
  | e :: rest => e +:+ sep +:+ Join rest sep
  end.

(** [strings.HasPrefix] and [strings.HasSuffix] *)
Fixpoint HasPrefix (s prefix : string) {struct prefix} : bool :=
  match prefix, s with
  | "", _ => true
  | String p prefix', String c s' => bool_decide (c = p) && HasPrefix s' prefix'
  | String _ _, "" => false
  end.

Definition HasSuffix (s suffix : string) : bool :=
  let n := String.length s in
  let m := String.length suffix in
  (m <=? n)%nat && String.eqb (string_drop (n - m) s) suffix.

(** The remainder of [s] after [prefix], when [s] starts with it. *)
Fixpoint strip_prefix (prefix s : string) {struct prefix} : option string :=
  match prefix, s with
  | "", _ => Some s
  | String p prefix', String c s' =>
      if bool_decide (c = p) then strip_prefix prefix' s' else None
  | String _ _, "" => None
  end.

(** Every byte of the text satisfies [P]. *)
Fixpoint allBytes (P : ascii → bool) (s : string) : bool :=
  match s with
  | "" => true
  | String c rest => P c && allBytes P rest
  end.

(** The text is ASCII: every byte is below [utf8.RuneSelf]. *)
Definition isASCII (s : string) : bool := allBytes (λ c, (nat_of_ascii c <? 128)%nat) s.

(** ** Name derivation: the loop of [augmentAttribute] *)

Lemma string_drop_length n s :
  String.length (string_drop n s) = (String.length s - n)%nat.
Proof.
  revert s; induction n as [|n IH]; intros [|c s]; simpl; auto with lia.
Qed.

Lemma IndexFunc_bounds s f :
  IndexFunc s f = -1 ∨ 0 <= IndexFunc s f < len s.
Proof.
  unfold len. induction s as [|c s IH]; simpl; [by left|].
  destruct (f c); [right; lia|].
  destruct IH as [-> | IH]; [by left|].
  destruct (Z.ltb_spec (IndexFunc s f) 0); [lia|right; lia].
Qed.

(** One pass through the loop header and body for a non-empty [s]: the
    length [l] of the next word. *)
Definition wordLength (s : string) : Z :=
  let l := IndexFunc (slice_from s 1) IsUpper + 1 in
  if l <=? 0 then len s else l.

Lemma wordLength_bounds s : s ≠ "" → 1 <= wordLength s <= len s.
Proof.
  intros Hs. unfold wordLength, slice_from, len.
  destruct s as [|c s]; [done|]. simpl string_drop.
  destruct (IndexFunc_bounds s IsUpper) as [-> | Hb]; simpl String.length.
  - simpl. lia.
  - unfold len in Hb. destruct (Z.leb_spec (IndexFunc s IsUpper + 1) 0); lia.
Qed.

(** [for s := attr.ModelName; s != ""; s = s[l:] { ... words = append(...) }] *)
Equations? deriveWords (s : string) : list string by wf (String.length s) lt :=
  deriveWords "" := [];
  deriveWords s :=
    let l := wordLength s in
    ToLower (slice_to s l) :: deriveWords (slice_from s l).
Proof.
  pose proof (wordLength_bounds s ltac:(done)) as Hb.
  unfold slice_from. rewrite string_drop_length.
  unfold len in Hb. subst l. subst s. simpl String.length in *. lia.
Qed.

Definition deriveTfName (modelName : string) : string :=
  Join (deriveWords modelName) "_".

(** ** The data model: [YamlConfig] and [YamlConfigAttribute]

    Field names are those of the Go structs; [Type] is a keyword and is
    written [Type_], and the three fields that both structs have carry the
    prefix [Config] in [YamlConfig].  [int64] is [Z], [float64] is the
    kernel's binary64 [float]. *)

#[warnings="-register-all"]
Inductive YamlConfigAttribute : Type := mkAttribute {
  ModelName : string;
  TfName : string;
  Type_ : string;
  DataPath : list string;
  Id : bool;
  ResourceId : bool;
  Reference : bool;
  RequiresReplace : bool;
  Mandatory : bool;
  WriteOnly : bool;
  WriteChangesOnly : bool;
  ExcludeTest : bool;
  ExcludeExample : bool;
  Description : string;
  Example : string;
  EnumValues : list string;
  MinList : Z;
  MaxList : Z;
  MinInt : Z;
  MaxInt : Z;
  MinFloat : float;
  MaxFloat : float;
  StringPatterns : list string;
  StringMinLength : Z;
  StringMaxLength : Z;
  DefaultValue : string;
  Value : string;
  TestValue : string;
  MinimumTestValue : string;
  TestTags : list string;
  Attributes : list YamlConfigAttribute
}.

Record YamlConfig : Type := mkConfig {
  Name : string;
  RestEndpoint : string;
  PutCreate : bool;
  NoUpdate : bool;
  NoDelete : bool;
  DataSourceNameQuery : bool;
  MinimumVersion : string;
  DsDescription : string;
  ResDescription : string;
  DocCategory : string;
  ConfigExcludeTest : bool;
  SkipMinimumTest : bool;
  ConfigAttributes : list YamlConfigAttribute;
  ConfigTestTags : list string;
  TestPrerequisites : string
}.

(** Assignments to single fields. *)
Definition set_TfName (v : string) (a : YamlConfigAttribute) : YamlConfigAttribute :=
  mkAttribute (ModelName a) v (Type_ a) (DataPath a) (Id a) (ResourceId a)
    (Reference a) (RequiresReplace a) (Mandatory a) (WriteOnly a)
    (WriteChangesOnly a) (ExcludeTest a) (ExcludeExample a) (Description a)
    (Example a) (EnumValues a) (MinList a) (MaxList a) (MinInt a) (MaxInt a)
    (MinFloat a) (MaxFloat a) (StringPatterns a) (StringMinLength a)
    (StringMaxLength a) (DefaultValue a) (Value a) (TestValue a)
    (MinimumTestValue a) (TestTags a) (Attributes a).

Definition set_Attributes (v : list YamlConfigAttribute) (a : YamlConfigAttribute)
  : YamlConfigAttribute :=
  mkAttribute (ModelName a) (TfName a) (Type_ a) (DataPath a) (Id a) (ResourceId a)
    (Reference a) (RequiresReplace a) (Mandatory a) (WriteOnly a)
    (WriteChangesOnly a) (ExcludeTest a) (ExcludeExample a) (Description a)
    (Example a) (EnumValues a) (MinList a) (MaxList a) (MinInt a) (MaxInt a)
    (MinFloat a) (MaxFloat a) (StringPatterns a) (StringMinLength a)
    (StringMaxLength a) (DefaultValue a) (Value a) (TestValue a)
    (MinimumTestValue a) (TestTags a) v.

Definition set_ConfigAttributes (v : list YamlConfigAttribute) (c : YamlConfig) : YamlConfig :=
  mkConfig (Name c) (RestEndpoint c) (PutCreate c) (NoUpdate c) (NoDelete c)
    (DataSourceNameQuery c) (MinimumVersion c) (DsDescription c) (ResDescription c)
    (DocCategory c) (ConfigExcludeTest c) (SkipMinimumTest c) v (ConfigTestTags c)
    (TestPrerequisites c).

Definition set_DsDescription (v : string) (c : YamlConfig) : YamlConfig :=
  mkConfig (Name c) (RestEndpoint c) (PutCreate c) (NoUpdate c) (NoDelete c)
    (DataSourceNameQuery c) (MinimumVersion c) v (ResDescription c)
    (DocCategory c) (ConfigExcludeTest c) (SkipMinimumTest c) (ConfigAttributes c)
    (ConfigTestTags c) (TestPrerequisites c).

Definition set_ResDescription (v : string) (c : YamlConfig) : YamlConfig :=
  mkConfig (Name c) (RestEndpoint c) (PutCreate c) (NoUpdate c) (NoDelete c)
    (DataSourceNameQuery c) (MinimumVersion c) (DsDescription c) v
    (DocCategory c) (ConfigExcludeTest c) (SkipMinimumTest c) (ConfigAttributes c)
    (ConfigTestTags c) (TestPrerequisites c).

(** ** Template helper functions *)

(** [unicode.IsSpace] on a byte: tab, line feed, vertical tab, form feed,
    carriage return and space. *)
Definition IsSpace (c : ascii) : bool :=
  let n := nat_of_ascii c in ((9 <=? n)%nat && (n <=? 13)%nat) || (n =? 32)%nat.

(** [strings.ReplaceAll(s, "-", " ")] *)
Fixpoint replaceHyphens (s : string) : string :=
  match s with
  | "" => ""
  | String c rest => String (if bool_decide (c = "-"%char) then " "%char else c) (replaceHyphens rest)
  end.

(** [strings.Fields]: the maximal runs of bytes that are not white space.
    [cur] is the field being read, if any. *)
Fixpoint Fields_go (cur : option string) (s : string) : list string :=
  match s with
  | "" => option_list cur
  | String c rest =>
      if IsSpace c then option_list cur ++ Fields_go None rest
      else Fields_go (Some (default "" cur +:+ String c "")) rest
  end.

Definition Fields (s : string) : list string := Fields_go None s.

Definition SnakeCase (s : string) : string :=
  let s := replaceHyphens s in
  let p := Fields s in
  let g := map ToLower p in
  Join g "_".

Definition BuildPath (s : list string) : string := Join s ".".

(** [strings.Split(s, sep)] for a separator [sep] of one byte: the pieces
    of [s] between the separators; a text without separator, the empty one
    included, is one piece. *)
Fixpoint Split (s : string) (sep : ascii) : list string :=
  match s with
  | "" => [""]
  | String c rest =>
      if bool_decide (c = sep) then "" :: Split rest sep
      else match Split rest sep with
           | [] => [String c ""]
           | piece :: pieces => String c piece :: pieces
           end
  end.

(** [isSeparator] of package [strings] on a byte: ASCII letters, digits and
    the underscore are no separators, every other ASCII byte is one. *)
Definition isSeparator (c : ascii) : bool :=
  let n := nat_of_ascii c in
  if (n <=? 127)%nat then
    negb (((48 <=? n)%nat && (n <=? 57)%nat) || ((97 <=? n)%nat && (n <=? 122)%nat)
          || ((65 <=? n)%nat && (n <=? 90)%nat) || (n =? 95)%nat)
  else false.

(** [unicode.ToTitle] on a byte. *)
Definition title_byte (c : ascii) : ascii :=
  let n := nat_of_ascii c in
  if (97 <=? n)%nat && (n <=? 122)%nat then ascii_of_nat (n - 32) else c.

(** [strings.Title]: the byte after a separator is put in title case;
    [prev] starts as a space. *)
Fixpoint Title_go (prev : ascii) (s : string) : string :=
  match s with
  | "" => ""
  | String c rest => String (if isSeparator prev then title_byte c else c) (Title_go c rest)
  end.

Definition Title (s : string) : string := Title_go " "%char s.

Definition ToGoName (s : string) : string :=
  let p := Split s "_"%char in
  let g := map Title p in
  Join g "".

Definition CamelCase (s : string) : string :=
  let s := replaceHyphens s in
  let p := Fields s in
  let g := map Title p in
  Join g "".

Fixpoint contains (s : list string) (str : string) : bool :=
  match s with
  | [] => false
  | v :: rest => if String.eqb v str then true else contains rest str
  end.

Fixpoint HasId (attributes : list YamlConfigAttribute) : bool :=
  match attributes with
  | [] => false
  | attr :: rest => if Id attr then true else HasId rest
  end.

Fixpoint HasReference (attributes : list YamlConfigAttribute) : bool :=
  match attributes with
  | [] => false
  | attr :: rest => if Reference attr then true else HasReference rest
  end.

(** [HasResourceId] calls itself on the nested attributes of an element of
    its argument.  The body of its loop for one attribute is [attrHasResourceId];
    the inner [fix] is the loop over the nested attributes. *)
Fixpoint attrHasResourceId (attr : YamlConfigAttribute) : bool :=
  if ResourceId attr then true
  else
    (0 <? Z.of_nat (length (Attributes attr)))
    && (fix loop (attributes : list YamlConfigAttribute) : bool :=
          match attributes with
          | [] => false
          | a :: rest => if attrHasResourceId a then true else loop rest
          end) (Attributes attr).

Fixpoint HasResourceId (attributes : list YamlConfigAttribute) : bool :=
  match attributes with
  | [] => false
  | attr :: rest => if attrHasResourceId attr then true else HasResourceId rest
  end.

(** ** Augmentation *)

Fixpoint augmentAttribute (attr : YamlConfigAttribute) : YamlConfigAttribute :=
  let attr1 :=
    if String.eqb (TfName attr) "" then set_TfName (deriveTfName (ModelName attr)) attr
    else attr in
  if String.eqb (Type_ attr) "List" || String.eqb (Type_ attr) "Set"
  then set_Attributes (map augmentAttribute (Attributes attr)) attr1
  else attr1.

Definition augmentConfig (config : YamlConfig) : YamlConfig :=
  let config := set_ConfigAttributes (map augmentAttribute (ConfigAttributes config)) config in
  let config :=
    if String.eqb (DsDescription config) ""
    then set_DsDescription ("This data source can read the " +:+ Name config +:+ ".") config
    else config in
  if String.eqb (ResDescription config) "" then
    let name := ToLower (Name config) in
    if HasPrefix name "a" || HasPrefix name "e" || HasPrefix name "i"
       || HasPrefix name "o" || HasPrefix name "u"
    then set_ResDescription ("This resource can manage an " +:+ Name config +:+ ".") config
    else set_ResDescription ("This resource can manage a " +:+ Name config +:+ ".") config
  else config.

(** ** Line scanning: [bufio.Scanner] *)

(** The input cut at every line feed; a last line without a line feed is a
    line when it is not empty. *)
Fixpoint rawLines (s : string) : list string :=
  match s with
  | "" => []
  | String c rest =>
      if bool_decide (c = LF) then "" :: rawLines rest
      else match rawLines rest with
           | [] => [String c ""]
           | l :: ls => String c l :: ls
           end
  end.

(** [dropCR] of package [bufio]: one trailing carriage return is dropped. *)
Fixpoint dropCR (s : string) : string :=
  match s with
  | "" => ""
  | String c "" => if bool_decide (c = CR) then "" else s
  | String c rest => String c (dropCR rest)
  end.

(** [bufio.MaxScanTokenSize], the size to which the buffer of a scanner
    grows. *)
Definition MaxScanTokenSize : Z := 64 * 1024.

(** A line fits the buffer when it is shorter than the buffer: [Scan] gives
    up when the buffer is full and holds no line feed. *)
Definition fits (line : string) : bool := len line <? MaxScanTokenSize.

(** The lines up to the first one that does not fit. *)
Fixpoint fitting (lines : list string) : list string :=
  match lines with
  | [] => []
  | line :: rest => if fits line then line :: fitting rest else []
  end.

(** The state of a scanner: the input that no token has consumed, or, once
    [Scan] has stopped with [ErrTooLong], the bytes left in the buffer. *)
Inductive Scanner : Type :=
  | Reading (input : string)
  | TooLong (buffer : string).

(** One call of [Scan]; [Some token] stands for [true] with [Text()] the
    token.  With the error set, the split function is called as at the end
    of the input and hands out the buffer as a last line. *)
Definition Scan (scanner : Scanner) : option string * Scanner :=
  match scanner with
  | Reading input =>
      match rawLines input with
      | [] => (None, Reading "")
      | line :: _ =>
          if fits line
          then (Some (dropCR line), Reading (string_drop (S (String.length line)) input))
          else (None, TooLong (string_take (Z.to_nat MaxScanTokenSize) input))
      end
  | TooLong buffer =>
      if String.eqb buffer "" then (None, TooLong "")
      else (Some (dropCR buffer), TooLong "")
  end.

(** [for scanner.Scan() { ... scanner.Text() ... }]: the tokens of the calls
    of [Scan] up to the first one that returns false. *)
Definition tokens (scanner : Scanner) : list string :=
  match scanner with
  | Reading input => map dropCR (fitting (rawLines input))
  | TooLong buffer => if String.eqb buffer "" then [] else [dropCR buffer]
  end.

(** The lines that a loop over a new scanner of [content] reads. *)
Definition ScanLines (content : string) : list string := tokens (Reading content).

(** [line + "\n"] *)
Definition withLF (line : string) : string := line +:+ String LF "".

(** ** Marker lines: the regular expressions of the merge *)

(** The Perl class [\s]: tab, line feed, form feed, carriage return, space. *)
Definition reSpace (c : ascii) : bool :=
  let n := nat_of_ascii c in
  (n =? 9)%nat || (n =? 10)%nat || (n =? 12)%nat || (n =? 13)%nat || (n =? 32)%nat.

Fixpoint noLineFeed (s : string) : bool :=
  match s with
  | "" => true
  | String c rest => negb (bool_decide (c = LF)) && noLineFeed rest
  end.

Definition beginToken : string := "//template:begin".
Definition endToken : string := "//template:end".

(** A match of [token\s(.*?)$] that starts at the first byte of [s]: the text
    of the group.  The group cannot cross a line feed and has to reach the
    end of the text. *)
Definition markerAt (token s : string) : option string :=
  match strip_prefix token s with
  | Some (String c rest) => if reSpace c && noLineFeed rest then Some rest else None
  | _ => None
  end.

(** [regexp.MustCompile(token\s(.*?)$).FindStringSubmatch(line)]: the
    leftmost match.  [Some m] is the slice of length two whose element 1 is
    [m]; [None] is the nil slice. *)
Fixpoint FindStringSubmatch (token line : string) : option string :=
  match markerAt token line with
  | Some m => Some m
  | None =>
      match line with
      | "" => None
      | String _ rest => FindStringSubmatch token rest
      end
  end.

(** The match of [token\s + name + $] for a name that the pattern takes as
    literal text: some suffix of the line is the token, one white space byte
    and the name. *)
Fixpoint MatchString (token name line : string) : bool :=
  match strip_prefix token line with
  | Some (String c rest) => reSpace c && String.eqb rest name
  | _ => false
  end
  || match line with
     | "" => false
     | String _ rest => MatchString token name rest
     end.

(** The metacharacters of the regexp syntax, as [regexp.QuoteMeta] lists
    them. *)
Definition regexpMeta : list ascii :=
  ["\"; "."; "+"; "*"; "?"; "("; ")"; "|"; "["; "]"; "{"; "}"; "^"; "$"]%char.

(** A byte that stands for itself in a pattern, and a name made of such
    bytes. *)
Definition literalByte (c : ascii) : bool :=
  (nat_of_ascii c <? 128)%nat && negb (bool_decide (c ∈ regexpMeta)).

Definition literalName (name : string) : bool := allBytes literalByte name.

(** [regexp.MustCompile(token\s + name + $)], with [MatchString] of the
    result.  [None]: the name is not literal text for the pattern, and what
    the call does is not given here. *)
Definition MustCompile (token name : string) : option (string → bool) :=
  if literalName name then Some (MatchString token name) else None.

(** ** [getTemplateSection] *)

Record sectionState := mkSectionState { result : string; foundSection : bool }.

(** The body of [for scanner.Scan()]. *)
Definition sectionLine (beginRegex endRegex : string → bool)
    (st : sectionState) (line : string) : sectionState :=
  if negb (foundSection st) then
    if beginRegex line
    then {| result := result st +:+ withLF line; foundSection := true |}
    else st
  else
    let result' := result st +:+ withLF line in
    if endRegex line
    then {| result := result'; foundSection := false |}
    else {| result := result'; foundSection := foundSection st |}.

Definition getTemplateSection (content name : string) : option string :=
  let scanner := ScanLines content in
  beginRegex ← MustCompile beginToken name;
  endRegex ← MustCompile endToken name;
  Some (result (fold_left (sectionLine beginRegex endRegex) scanner
                  {| result := ""; foundSection := false |})).

(** ** The merge with an existing file: the scan loop of [renderTemplate] *)

Record mergeState := mkMergeState { currentSectionName : string; newContent : string }.

(** The body of [for existingScanner.Scan()]; [output] is the rendered text.
    [None]: the call of [getTemplateSection] has no result. *)
Definition mergeLine (output : string) (st : mergeState) (line : string)
  : option mergeState :=
  if String.eqb (currentSectionName st) "" then
    match FindStringSubmatch beginToken line with
    | Some m =>
        if negb (String.eqb m "")
        then Some {| currentSectionName := m; newContent := newContent st |}
        else Some {| currentSectionName := currentSectionName st;
                     newContent := newContent st +:+ withLF line |}
    | None =>
        Some {| currentSectionName := currentSectionName st;
                newContent := newContent st +:+ withLF line |}
    end
  else
    match FindStringSubmatch endToken line with
    | Some m =>
        if String.eqb m (currentSectionName st)
        then newSection ← getTemplateSection output m;
             Some {| currentSectionName := "";
                     newContent := newContent st +:+ newSection |}
        else Some st
    | None => Some st
    end.

(** The loop over the lines, from the state [st]. *)
Fixpoint mergeLoop (output : string) (lines : list string) (st : mergeState)
  : option mergeState :=
  match lines with
  | [] => Some st
  | line :: rest => st ← mergeLine output st line; mergeLoop output rest st
  end.

Definition mergeScan (output : string) (lines : list string) : option mergeState :=
  mergeLoop output lines {| currentSectionName := ""; newContent := "" |}.

(** The new content computed from the rendered [output] and the text
    [existing] of the file at the output path. *)
Definition mergeExisting (output existing : string) : option string :=
  newContent <$> mergeScan output (ScanLines existing).

(** ** The file system and the outcome of a run *)

(** Regular files by path, one key for a file. *)
Abbreviation FS := (gmap string string).

(** A computation ends normally with a value, or in [log.Fatalf], or it
    reaches a step that this development does not interpret; in each case
    with the file system as it is then. *)
Inductive outcome (A : Type) : Type :=
  | Done (a : A) (fs : FS)
  | Fatal (msg : string) (fs : FS)
  | Uninterpreted (fs : FS).
Arguments Done {A} a fs.
Arguments Fatal {A} msg fs.
Arguments Uninterpreted {A} fs.

Definition M (A : Type) : Type := FS → outcome A.

Global Instance M_ret : MRet M := λ A a fs, Done a fs.
Global Instance M_bind : MBind M := λ A B f m fs,
  match m fs with
  | Done a fs' => f a fs'
  | Fatal msg fs' => Fatal msg fs'
  | Uninterpreted fs' => Uninterpreted fs'
  end.

(** The file system at the end of a computation. *)
Definition outcome_fs {A} (r : outcome A) : FS :=
  match r with
  | Done _ fs => fs
  | Fatal _ fs => fs
  | Uninterpreted fs => fs
  end.

(** [log.Fatalf] *)
Definition Fatalf {A} (msg : string) : M A := λ fs, Fatal msg fs.

(** A step outside the development. *)
Definition uninterpreted {A} : M A := λ fs, Uninterpreted fs.

(** [os.Open] and [os.ReadFile]: the content of the file, if there is one. *)
Definition os_ReadFile (path : string) : M (option string) := λ fs, Done (fs !! path) fs.

(** The path [p] lies below the path [d]. *)
Definition below (d p : string) : bool :=
  match strip_prefix (d +:+ "/") p with
  | Some (String _ _) => true
  | _ => false
  end.

(** No file can be created at [path]: a regular file stands where the path
    needs a directory, or the path is a directory. *)
Definition blocked (fs : FS) (path : string) : bool :=
  existsb (λ file, below file path || below path file) (map fst (map_to_list fs)).

(** [os.Create] followed by [Write]: the file holds the bytes written.  The
    error of [os.Create] ends the run in [log.Fatalf]. *)
Definition os_Create (path content : string) : M () := λ fs,
  if blocked fs path then Fatal "Error creating output file" fs
  else Done () (<[path := content]> fs).

(** The first element of a relative path. *)
Fixpoint firstElement (s : string) : string :=
  match s with
  | "" => ""
  | String c rest => if bool_decide (c = "/"%char) then "" else String c (firstElement rest)
  end.

(** [os.ReadDir]: the names of the entries of the directory, sorted. *)
Definition os_ReadDir (dir : string) : M (list string) := λ fs,
  let entry (p : string) : option string :=
    match strip_prefix dir p with
    | Some n => let e := firstElement n in if String.eqb e "" then None else Some e
    | None => None
    end in
  Done (merge_sort String.le (remove_dups (omap entry (map fst (map_to_list fs))))) fs.

(** [path.Base] *)
Fixpoint stripTrailingSlashes (s : string) : string :=
  match s with
  | "" => ""
  | String c rest =>
      match stripTrailingSlashes rest with
      | "" => if bool_decide (c = "/"%char) then "" else String c ""
      | r => String c r
      end
  end.

Fixpoint afterLastSlash (cur s : string) : string :=
  match s with
  | "" => cur
  | String c rest =>
      if bool_decide (c = "/"%char) then afterLastSlash "" rest
      else afterLastSlash (cur +:+ String c "") rest
  end.

Definition path_Base (path : string) : string :=
  if String.eqb path "" then "."
  else
    let path := afterLastSlash "" (stripTrailingSlashes path) in
    if String.eqb path "" then "/" else path.

(** ** Constants of the generator *)

Definition definitionsPath : string := "./gen/definitions/".
Definition providerTemplate : string := "./gen/templates/provider.go".
Definition providerLocation : string := "./internal/provider/provider.go".
Definition changelogTemplate : string := "./gen/templates/changelog.md.tmpl".
Definition changelogLocation : string := "./templates/guides/changelog.md.tmpl".
Definition changelogOriginal : string := "./CHANGELOG.md".

Record t := mkT { path : string; prefix : string; suffix : string }.

Definition templates : list t := [
  mkT "./gen/templates/model.go" "./internal/provider/model_fmc_" ".go";
  mkT "./gen/templates/data_source.go" "./internal/provider/data_source_fmc_" ".go";
  mkT "./gen/templates/data_source_test.go" "./internal/provider/data_source_fmc_" "_test.go";
  mkT "./gen/templates/resource.go" "./internal/provider/resource_fmc_" ".go";
  mkT "./gen/templates/resource_test.go" "./internal/provider/resource_fmc_" "_test.go";
  mkT "./gen/templates/data-source.tf" "./examples/data-sources/fmc_" "/data-source.tf";
  mkT "./gen/templates/resource.tf" "./examples/resources/fmc_" "/resource.tf";
  mkT "./gen/templates/import.sh" "./examples/resources/fmc_" "/import.sh"
].

(** The values passed as [config interface{}] to [renderTemplate]. *)
Inductive TemplateData : Type :=
  | DataConfig (config : YamlConfig)
  | DataNames (providerConfig : list string)
  | DataText (changelog : string).

(** ** [renderTemplate] and [main] *)

(** The text handed to the template parser: the lines of the template file,
    after one call of [Scan] for a Go template. *)
Definition templateText (templatePath file : string) : string :=
  let scanner := Reading file in
  let scanner := if HasSuffix templatePath ".go" then snd (Scan scanner) else scanner in
  fold_left (λ temp line, temp +:+ withLF line) (tokens scanner) "".

(** A path in normal form: [./] and then elements with one slash between
    them, none of them empty, [.] or [..], and none with a zero byte, which
    no path may hold.  For such a path [filepath.Join(outputPath)] is the
    path without the leading [./], and both spellings name one file. *)
Definition normalElement (e : string) : bool :=
  negb (String.eqb e "") && negb (String.eqb e ".") && negb (String.eqb e "..")
  && allBytes (λ c, negb (bool_decide (c = "000"%char))) e.

Definition normalPath (p : string) : bool :=
  match strip_prefix "./" p with
  | Some rest => forallb normalElement (Split rest "/"%char)
  | None => false
  end.

(** The bytes written to the output file: the rendered text, or the merge
    of it with the existing file of a Go template. *)
Definition outputBytes (templatePath : string) (output : string) (existingFile : option string)
  : option string :=
  match existingFile with
  | None => Some output
  | Some existing =>
      if HasSuffix templatePath ".go" then mergeExisting output existing else Some output
  end.

(** The end of [renderTemplate], from [filepath.Join(outputPath)] on. *)
Definition writeOutput (templatePath outputPath output : string) : M () :=
  if negb (normalPath outputPath) then uninterpreted
  else
    existingFile ← os_ReadFile outputPath;
    match outputBytes templatePath output existingFile with
    | None => uninterpreted
    | Some bytes => os_Create outputPath bytes
    end.

Section Generator.

(** [template.New(name).Funcs(functions).Parse(text)] and [Execute]; [None]
    is a returned error. *)
Variable Template : Type.
Variable Parse : string → string → option Template.
Variable Execute : Template → TemplateData → option string.

(** [yaml.Unmarshal] into a zero [YamlConfig]. *)
Variable Unmarshal : string → option YamlConfig.

Definition renderTemplate (templatePath outputPath : string) (config : TemplateData) : M () :=
  file ← os_ReadFile templatePath;
  match file with
  | None => Fatalf "Error opening template"
  | Some file =>
      let temp := templateText templatePath file in
      match Parse (path_Base templatePath) temp with
      | None => Fatalf "Error parsing template"
      | Some template =>
          match Execute template config with
          | None => Fatalf "Error executing template"
          | Some output => writeOutput templatePath outputPath output
          end
      end
  end.

(** The first loop of [main]: every definition is read and decoded. *)
Fixpoint loadConfigs (files : list string) : M (list YamlConfig) :=
  match files with
  | [] => mret []
  | filename :: rest =>
      yamlFile ← os_ReadFile (definitionsPath +:+ filename);
      match yamlFile with
      | None => Fatalf "Error reading file"
      | Some yamlFile =>
          match Unmarshal yamlFile with
          | None => Fatalf "Error parsing yaml"
          | Some config => configs ← loadConfigs rest; mret (config :: configs)
          end
      end
  end.

(** [for _, t := range templates { renderTemplate(...) }] for one definition. *)
Fixpoint renderTemplates (ts : list t) (config : YamlConfig) : M () :=
  match ts with
  | [] => mret ()
  | t :: rest =>
      renderTemplate (path t) (prefix t +:+ SnakeCase (Name config) +:+ suffix t)
        (DataConfig config);;
      renderTemplates rest config
  end.

(** The second loop of [main]; the result is [providerConfig]. *)
Fixpoint generate (configs : list YamlConfig) : M (list string) :=
  match configs with
  | [] => mret []
  | config :: rest =>
      let config := augmentConfig config in
      renderTemplates templates config;;
      names ← generate rest;
      mret (Name config :: names)
  end.

Definition main : M () :=
  files ← os_ReadDir definitionsPath;
  configs ← loadConfigs files;
  providerConfig ← generate configs;
  renderTemplate providerTemplate providerLocation (DataNames providerConfig);;
  changelog ← os_ReadFile changelogOriginal;
  match changelog with
  | None => Fatalf "Error reading changelog"
  | Some changelog =>
      renderTemplate changelogTemplate changelogLocation (DataText changelog)
  end.

End Generator.

(** ** Definitions used to state the properties *)

(** The segmentation of a model-side name as the specification words it.
    The first upper case letter at a position of at least 1: *)
Fixpoint findUpper (p : nat) (s : string) : option nat :=
  match s with
  | "" => None
  | String c rest => if IsUpper c then Some p else findUpper (S p) rest
  end.

Definition firstUpperAfterHead (s : string) : option nat :=
  match s with
  | "" => None
  | String _ rest => findUpper 1 rest
  end.

(** The next word: the prefix of [s] up to and including the character
    before that letter, or all of [s] if there is none. *)
Definition nextWord (s : string) : string :=
  match firstUpperAfterHead s with
  | Some p => string_take p s
  | None => s
  end.

Lemma string_take_length n s :
  (n ≤ String.length s)%nat → String.length (string_take n s) = n.
Proof.
  revert s; induction n as [|n IH]; intros [|c s]; simpl; intros; auto with lia.
Qed.

Lemma string_take_all s : string_take (String.length s) s = s.
Proof. induction s as [|c s IH]; simpl; [done|by f_equal]. Qed.

Lemma findUpper_bounds s p q :
  findUpper p s = Some q → (p ≤ q < p + String.length s)%nat.
Proof.
  revert p; induction s as [|c s IH]; intros p; simpl; [done|].
  destruct (IsUpper c); [intros [= <-]; lia|]. intros Hq%IH. lia.
Qed.





(** An attribute occurs anywhere in the tree below a sequence of attributes. *)
Inductive nestedIn (a : YamlConfigAttribute) : list YamlConfigAttribute → Prop :=
  | nested_here attributes : a ∈ attributes → nestedIn a attributes
  | nested_below b attributes :
      b ∈ attributes → nestedIn a (Attributes b) → nestedIn a attributes.

(** The text whose lines are [lines], each ended by a line feed. *)
Definition unlines (lines : list string) : string :=
  fold_right (λ line text, withLF line +:+ text) "" lines.

(** The name of the section that a line opens when it is read outside a
    section: the line is a begin-marker with a name that is not empty. *)
Definition beginName (line : string) : option string :=
  match FindStringSubmatch beginToken line with
  | Some m => if String.eqb m "" then None else Some m
  | None => None
  end.

(** The line is an end-marker with the name [name]. *)
Definition endsSection (name line : string) : bool :=
  match FindStringSubmatch endToken line with
  | Some m => String.eqb m name
  | None => false
  end.

(** The index of the first end-marker of [name] in [lines]. *)
Fixpoint firstEnd (name : string) (lines : list string) : option nat :=
  match lines with
  | [] => None
  | line :: rest => if endsSection name line then Some 0%nat else S <$> firstEnd name rest
  end.

(** The marked section that starts at line [i], if that line is a
    begin-marker: it ends at the first later end-marker of the same name.
    The result is the index of that line. *)
Definition sectionEnd (lines : list string) (i : nat) : option nat :=
  b ← lines !! i;
  name ← beginName b;
  d ← firstEnd name (drop (S i) lines);
  Some (S i + d)%nat.

(** Line [k] lies in a marked section: between a begin-marker and the end
    of its section, both included. *)
Definition insideSection (lines : list string) (k : nat) : bool :=
  existsb (λ i, match sectionEnd lines i with
                | Some j => (k <=? j)%nat
                | None => false
                end) (seq 0 (S k)).

(** The lines with index in [p, p + m) that lie outside all marked sections. *)
Definition outsideRange (lines : list string) (p m : nat) : list string :=
  omap (λ k, if insideSection lines k then None else lines !! k) (seq p m).

Definition outsideLines (lines : list string) : list string :=
  outsideRange lines 0 (length lines).

(** Every begin-marker line with a name is followed by an end-marker line
    with the same name. *)
Definition wellTerminated (lines : list string) : Prop :=
  ∀ i b name,
    lines !! i = Some b →
    FindStringSubmatch beginToken b = Some name → name ≠ "" →
    ∃ j e, (i < j)%nat ∧ lines !! j = Some e ∧ FindStringSubmatch endToken e = Some name.

(** What the scan of the existing file contributes to the new content, line
    by line: a line kept as it is, or the fresh text of a section. *)
Inductive piece : Type :=
  | Kept (line : string)
  | Fresh (name : string).

Fixpoint mergePieces (current : string) (lines : list string) : list piece :=
  match lines with
  | [] => []
  | line :: rest =>
      if String.eqb current "" then
        match beginName line with
        | Some name => mergePieces name rest
        | None => Kept line :: mergePieces "" rest
        end
      else if endsSection current line then Fresh current :: mergePieces "" rest
      else mergePieces current rest
  end.

(** The section open after the scan of [lines]; the empty name is none. *)
Fixpoint openSection (current : string) (lines : list string) : string :=
  match lines with
  | [] => current
  | line :: rest =>
      if String.eqb current "" then
        match beginName line with
        | Some name => openSection name rest
        | None => openSection "" rest
        end
      else if endsSection current line then openSection "" rest
      else openSection current rest
  end.

(** The lines of a section of the rendered text, as [getTemplateSection]
    collects them. *)
Fixpoint sectionLines (name : string) (found : bool) (lines : list string) : list string :=
  match lines with
  | [] => []
  | line :: rest =>
      if found then line :: sectionLines name (negb (MatchString endToken name line)) rest
      else if MatchString beginToken name line then line :: sectionLines name true rest
      else sectionLines name false rest
  end.

(** The lines that the pieces stand for. *)
Definition pieceLines (output : string) (p : piece) : list string :=
  match p with
  | Kept line => [line]
  | Fresh name => sectionLines name false (ScanLines output)
  end.

Definition keptLines (pieces : list piece) : list string :=
  omap (λ p, match p with Kept line => Some line | Fresh _ => None end) pieces.

(** The names of the sections whose fresh text the pieces ask for. *)
Definition freshNames (pieces : list piece) : list string :=
  omap (λ p, match p with Kept _ => None | Fresh name => Some name end) pieces.

(** The text that the pieces stand for. *)
Definition piecesText (output : string) (pieces : list piece) : string :=
  unlines (pieces ≫= pieceLines output).

(** [wellTerminated] as a check that computes. *)
Definition wellTerminatedb (lines : list string) : bool :=
  forallb (λ i, match lines !! i with
                | Some b =>
                    match beginName b with
                    | Some name => bool_decide (is_Some (firstEnd name (drop (S i) lines)))
                    | None => true
                    end
                | None => true
                end) (seq 0 (length lines)).

(** The last byte of the text is a carriage return. *)
Fixpoint endsWithCR (s : string) : bool :=
  match s with
  | "" => false
  | String c "" => bool_decide (c = CR)
  | String _ rest => endsWithCR rest
  end.

(** A line as a scanner yields it from a text with plain line feeds: no
    line feed inside and no carriage return at the end. *)
Definition plainLine (line : string) : Prop :=
  noLineFeed line = true ∧ endsWithCR line = false.

(** The outcome [r] of a computation started in [fs]: the files at the
    paths in [W] at most are created or changed, and no file is removed. *)
Definition changesOnly {A} (W : string → Prop) (fs : FS) (r : outcome A) : Prop :=
  ∀ p : string,
    (outcome_fs r !! p = fs !! p ∨ W p)
    ∧ (is_Some (fs !! p) → is_Some (outcome_fs r !! p)).

Definition writesOnly {A} (W : string → Prop) (m : M A) : Prop :=
  ∀ fs : FS, changesOnly W fs (m fs).

(** The output paths of a definition. *)
Definition outputPaths (config : YamlConfig) : list string :=
  map (λ t, prefix t +:+ SnakeCase (Name config) +:+ suffix t) templates.

(** An ASCII letter or digit. *)
Definition isAlnum (c : ascii) : bool :=
  let n := nat_of_ascii c in
  ((48 <=? n)%nat && (n <=? 57)%nat) || ((65 <=? n)%nat && (n <=? 90)%nat)
  || ((97 <=? n)%nat && (n <=? 122)%nat).

(** A byte that [SnakeCase] leaves in its result: no white space, no
    hyphen, no upper case letter. *)
Definition isSnakeByte (c : ascii) : bool :=
  negb (IsSpace c) && negb (bool_decide (c = "-"%char)) && negb (IsUpper c).

(** The bytes of [s] from its second one up to the first upper case letter,
    and the text from that letter on. *)
Fixpoint lowerRun (s : string) : string :=
  match s with
  | "" => ""
  | String c rest => if IsUpper c then "" else String c (lowerRun rest)
  end.

Fixpoint afterRun (s : string) : string :=
  match s with
  | "" => ""
  | String c rest => if IsUpper c then s else afterRun rest
  end.

(** The first byte of the text in title case. *)
Definition capitalized (s : string) : string :=
  match s with
  | "" => ""
  | String c rest => String (title_byte c) rest
  end.

(** The text with every upper case letter put in lower case after an
    underscore. *)
Fixpoint underscored (s : string) : string :=
  match s with
  | "" => ""
  | String c rest =>
      if IsUpper c then String "_"%char (String (lower_byte c) (underscored rest))
      else String c (underscored rest)
  end.

(** A line of [MaxScanTokenSize] bytes, the shortest that does not fit the
    buffer of a scanner. *)
Definition longLine (c : ascii) : string := Pos.iter (String c) "" 65536.

(** A file system with one definition and the eight templates, and a
    decoder that reads the content of a definition as its name. *)
Definition sampleFS : FS :=
  list_to_map (("./gen/definitions/host.yaml", "Host")
               :: map (λ t, (path t, "template")) templates).

Definition sampleDecode (content : string) : option YamlConfig :=
  Some (mkConfig content "" false false false false "" "" "" "" false false [] [] "").

Definition sampleRun : outcome (list string) :=
  generate string (λ _ text, Some text) (λ text _, Some text)
    [mkConfig "Host" "" false false false false "" "" "" "" false false [] [] ""] sampleFS.

(** ** Properties of the name derivation *)

Lemma IndexFunc_findUpper s p :
  IndexFunc s IsUpper =
    match findUpper p s with
    | Some q => Z.of_nat q - Z.of_nat p
    | None => -1
    end.
Proof.
  revert p; induction s as [|c s IH]; intros p; simpl; [done|].
  destruct (IsUpper c); [lia|].
  rewrite (IH (S p)). destruct (findUpper (S p) s) as [q|] eqn:Hq; [|done].
  apply findUpper_bounds in Hq.
  destruct (Z.ltb_spec (Z.of_nat q - Z.of_nat (S p)) 0); lia.
Qed.

(** The loop of the code computes the word that the specification describes. *)
Lemma wordLength_nextWord s :
  s ≠ "" →
  wordLength s = Z.of_nat (String.length (nextWord s))
  ∧ slice_to s (wordLength s) = nextWord s.
Proof.
  intros Hs. destruct s as [|c s]; [done|].
  unfold wordLength, nextWord, slice_from, slice_to.
  change (string_drop (Z.to_nat 1) (String c s)) with s.
  change (firstUpperAfterHead (String c s)) with (findUpper 1 s).
  rewrite (IndexFunc_findUpper s 1).
  destruct (findUpper 1 s) as [q|] eqn:Hq.
  - apply findUpper_bounds in Hq.
    destruct (Z.leb_spec (Z.of_nat q - Z.of_nat 1 + 1) 0); [lia|].
    replace (Z.to_nat (Z.of_nat q - Z.of_nat 1 + 1)) with q by lia.
    split; [|done]. rewrite string_take_length; [lia|]. simpl. lia.
  - change (-1 + 1 <=? 0) with true. cbv iota. unfold len.
    split; [done|]. rewrite Nat2Z.id. apply string_take_all.
Qed.


Lemma augmentAttribute_TfName attr :
  TfName (augmentAttribute attr) =
    if String.eqb (TfName attr) "" then deriveTfName (ModelName attr) else TfName attr.
Proof.
  destruct attr; simpl.
  repeat match goal with |- context [if ?b then _ else _] => destruct b end; done.
Qed.



(** ** Properties of the augmentation *)

(** Induction on attributes with the hypothesis for every nested attribute. *)
Lemma attribute_nested_ind (P : YamlConfigAttribute → Prop) :
  (∀ a, Forall P (Attributes a) → P a) → ∀ a, P a.
Proof.
  intros step. fix IH 1. intros a. apply step.
  destruct a as [? ? ? ? ? ? ? ? ? ? ? ? ? ? ? ? ? ? ? ? ? ? ? ? ? ? ? ? ? ? nested].
  simpl. induction nested as [|b nested IHn]; constructor; [apply IH|apply IHn].
Qed.

Lemma augmentAttribute_unfold attr :
  augmentAttribute attr =
    set_Attributes
      (if String.eqb (Type_ attr) "List" || String.eqb (Type_ attr) "Set"
       then map augmentAttribute (Attributes attr) else Attributes attr)
      (set_TfName
         (if String.eqb (TfName attr) "" then deriveTfName (ModelName attr) else TfName attr)
         attr).
Proof.
  destruct attr; simpl.
  repeat match goal with |- context [if ?b then _ else _] => destruct b end; done.
Qed.

Lemma augmentAttribute_idempotent attr :
  augmentAttribute (augmentAttribute attr) = augmentAttribute attr.
Proof.
  induction attr as [attr IH] using attribute_nested_ind.
  rewrite (augmentAttribute_unfold attr).
  rewrite augmentAttribute_unfold. unfold set_Attributes, set_TfName. simpl.
  f_equal.
  - destruct (String.eqb_spec (TfName attr) "") as [Hempty|Hfull].
    + destruct (String.eqb (deriveTfName (ModelName attr)) ""); done.
    + apply String.eqb_neq in Hfull. by rewrite Hfull.
  - destruct (String.eqb (Type_ attr) "List" || String.eqb (Type_ attr) "Set"); [|done].
    rewrite map_map. apply map_ext_Forall. exact IH.
Qed.

(** The condition under which [augmentConfig] writes the article [an]. *)
Definition writesAn (name : string) : bool :=
  let name := ToLower name in
  HasPrefix name "a" || HasPrefix name "e" || HasPrefix name "i"
  || HasPrefix name "o" || HasPrefix name "u".

Lemma augmentConfig_unfold config :
  augmentConfig config =
    mkConfig (Name config) (RestEndpoint config) (PutCreate config) (NoUpdate config)
      (NoDelete config) (DataSourceNameQuery config) (MinimumVersion config)
      (if String.eqb (DsDescription config) ""
       then "This data source can read the " +:+ Name config +:+ "."
       else DsDescription config)
      (if String.eqb (ResDescription config) "" then
         if writesAn (Name config) then "This resource can manage an " +:+ Name config +:+ "."
         else "This resource can manage a " +:+ Name config +:+ "."
       else ResDescription config)
      (DocCategory config) (ConfigExcludeTest config) (SkipMinimumTest config)
      (map augmentAttribute (ConfigAttributes config)) (ConfigTestTags config)
      (TestPrerequisites config).
Proof.
  destruct config as [name re pc nu nd dq mv ds rs dc et sm attrs tt tp].
  unfold augmentConfig, set_ResDescription, set_DsDescription, set_ConfigAttributes.
  cbn -[HasPrefix ToLower String.append].
  destruct (String.eqb ds ""); cbn -[HasPrefix ToLower String.append];
    (destruct (String.eqb rs ""); cbn -[HasPrefix ToLower String.append];
     [fold (writesAn name); destruct (writesAn name)|]; reflexivity).
Qed.

Lemma eqb_empty_append c a b : String.eqb (String c a +:+ b) "" = false.
Proof. reflexivity. Qed.

(** C4.  Augmentation is idempotent: augmenting an augmented definition
    changes nothing, neither the derived names of its attributes, nested
    ones included, nor the two synthesized descriptions. *)
Theorem augmentConfig_idempotent (config : YamlConfig) :
  augmentConfig (augmentConfig config) = augmentConfig config.
Proof.
  rewrite (augmentConfig_unfold config).
  rewrite augmentConfig_unfold. cbn -[HasPrefix ToLower String.append writesAn].
  f_equal.
  - destruct (String.eqb_spec (DsDescription config) "") as [Hds|Hds].
    + by rewrite eqb_empty_append.
    + by rewrite (proj2 (String.eqb_neq _ "")).
  - destruct (String.eqb_spec (ResDescription config) "") as [Hrs|Hrs].
    + destruct (writesAn (Name config)); by rewrite eqb_empty_append.
    + by rewrite (proj2 (String.eqb_neq _ "")).
  - rewrite map_map. apply map_ext. intros a. apply augmentAttribute_idempotent.
Qed.



Example resource_description_Rule :
  ResDescription (augmentConfig (mkConfig "Rule" "" false false false false "" "" "" ""
    false false [] [] "")) = "This resource can manage a Rule.".
Proof. vm_compute. reflexivity. Qed.

(** ** Properties of the predicate scans *)

(** [HasResourceId] as the source writes it: the flag of the attribute, then
    the recursive call on its nested attributes when there are any, then the
    rest of the sequence. *)
Lemma HasResourceId_cons attr rest :
  HasResourceId (attr :: rest) =
    if ResourceId attr then true
    else if (0 <? Z.of_nat (length (Attributes attr))) && HasResourceId (Attributes attr)
         then true
         else HasResourceId rest.
Proof.
  simpl. destruct attr as [? ? ? ? ? rid ? ? ? ? ? ? ? ? ? ? ? ? ? ? ? ? ? ? ? ? ? ? ? ? nested].
  simpl. destruct rid; [done|].
  replace ((fix loop (attributes : list YamlConfigAttribute) : bool :=
              match attributes with
              | [] => false
              | a :: rest0 => if attrHasResourceId a then true else loop rest0
              end) nested) with (HasResourceId nested); [done|].
  induction nested as [|b nested IH]; simpl; [done|]. by rewrite IH.
Qed.

Lemma HasId_true attributes :
  HasId attributes = true ↔ ∃ a, a ∈ attributes ∧ Id a = true.
Proof.
  induction attributes as [|attr rest IH]; simpl.
  - split; [done|]. intros (a & Ha & _). by apply elem_of_nil in Ha.
  - destruct (Id attr) eqn:Hid.
    + split; [|done]. intros _. exists attr. split; [left|done].
    + rewrite IH. split.
      * intros (a & Ha & Hflag). exists a. split; [by right|done].
      * intros (a & Ha & Hflag). apply elem_of_cons in Ha as [->|Ha]; [congruence|].
        by exists a.
Qed.

Lemma HasReference_true attributes :
  HasReference attributes = true ↔ ∃ a, a ∈ attributes ∧ Reference a = true.
Proof.
  induction attributes as [|attr rest IH]; simpl.
  - split; [done|]. intros (a & Ha & _). by apply elem_of_nil in Ha.
  - destruct (Reference attr) eqn:Href.
    + split; [|done]. intros _. exists attr. split; [left|done].
    + rewrite IH. split.
      * intros (a & Ha & Hflag). exists a. split; [by right|done].
      * intros (a & Ha & Hflag). apply elem_of_cons in Ha as [->|Ha]; [congruence|].
        by exists a.
Qed.

Lemma nestedIn_cons a attr rest :
  nestedIn a (attr :: rest) ↔ a = attr ∨ nestedIn a (Attributes attr) ∨ nestedIn a rest.
Proof.
  split.
  - intros Hin. inversion Hin as [? Hhere|b ? Hb Hbelow]; subst.
    + apply elem_of_cons in Hhere as [->|Hhere]; [by left|].
      right; right. by apply nested_here.
    + apply elem_of_cons in Hb as [->|Hb]; [by right; left|].
      right; right. by eapply nested_below.
  - intros [->|[Hbelow|Hrest]].
    + apply nested_here. left.
    + eapply nested_below; [left|done].
    + inversion Hrest as [? Hhere|b ? Hb Hbelow]; subst.
      * apply nested_here. by right.
      * eapply nested_below; [by right|done].
Qed.

Lemma nestedIn_nil a : ¬ nestedIn a [].
Proof.
  intros Hin. inversion Hin as [? Hhere|b ? Hb Hbelow]; subst.
  - by apply elem_of_nil in Hhere.
  - by apply elem_of_nil in Hb.
Qed.

(** One round of the loop of [HasResourceId], given the characterisation
    for the nested attributes of the head and for the tail. *)
Lemma HasResourceId_step attr rest :
  (HasResourceId (Attributes attr) = true ↔
     ∃ a, nestedIn a (Attributes attr) ∧ ResourceId a = true) →
  (HasResourceId rest = true ↔ ∃ a, nestedIn a rest ∧ ResourceId a = true) →
  HasResourceId (attr :: rest) = true ↔
    ∃ a, nestedIn a (attr :: rest) ∧ ResourceId a = true.
Proof.
  intros Hnested Hrest. rewrite HasResourceId_cons. setoid_rewrite nestedIn_cons.
  destruct (ResourceId attr) eqn:Hflag.
  { split; [|done]. intros _. exists attr. split; [by left|done]. }
  assert ((0 <? Z.of_nat (length (Attributes attr))) && HasResourceId (Attributes attr)
          = HasResourceId (Attributes attr)) as ->.
  { destruct (Attributes attr) as [|b nested]; [done|]. simpl length.
    by destruct (Z.ltb_spec 0 (Z.of_nat (S (length nested)))); [|lia]. }
  destruct (HasResourceId (Attributes attr)).
  - split; [|done]. intros _. destruct (proj1 Hnested eq_refl) as (a & Ha & Hrid).
    exists a. split; [by right; left|done].
  - rewrite Hrest. split.
    + intros (a & Ha & Hrid). exists a. split; [by right; right|done].
    + intros (a & [->|[Ha|Ha]] & Hrid); [congruence| |by exists a].
      assert (false = true); [|done]. apply Hnested. by exists a.
Qed.

Lemma HasResourceId_true attributes :
  HasResourceId attributes = true ↔ ∃ a, nestedIn a attributes ∧ ResourceId a = true.
Proof.
  assert (HasResourceId [] = true ↔ ∃ a, nestedIn a [] ∧ ResourceId a = true) as Hnil.
  { split; [done|]. intros (a & Ha & _). by apply nestedIn_nil in Ha. }
  assert (∀ attr, HasResourceId (Attributes attr) = true ↔
                  ∃ a, nestedIn a (Attributes attr) ∧ ResourceId a = true) as Hnested.
  { induction attr as [attr IH] using attribute_nested_ind.
    induction IH as [|b nested Hb _ IHn]; [done|]. by apply HasResourceId_step. }
  induction attributes as [|attr rest IH]; [done|]. by apply HasResourceId_step.
Qed.

(** C7.  [HasReference] is true exactly when an attribute of the sequence
    itself has the reference flag: nested attributes are not looked at.
    [HasResourceId] is true exactly when an attribute anywhere in the tree of
    nested attributes has the resource-identifier flag. *)
Theorem reference_is_shallow_resource_id_is_deep (attributes : list YamlConfigAttribute) :
  (HasReference attributes = true ↔ ∃ a, a ∈ attributes ∧ Reference a = true)
  ∧ (HasResourceId attributes = true ↔ ∃ a, nestedIn a attributes ∧ ResourceId a = true).
Proof.
  split.
  - apply HasReference_true.
  - apply HasResourceId_true.
Qed.

(** A reference flag below the top level does not count; a resource
    identifier there does. *)
Example nested_flags :
  let inner := set_Attributes [] (mkAttribute "Inner" "" "String" [] true true true
    false false false false false false "" "" [] 0 0 0 0
    PrimFloat.zero PrimFloat.zero [] 0 0 "" "" "" "" [] []) in
  let outer := set_Attributes [inner] (mkAttribute "Outer" "" "List" [] false false false
    false false false false false false "" "" [] 0 0 0 0
    PrimFloat.zero PrimFloat.zero [] 0 0 "" "" "" "" [] []) in
  HasReference [outer] = false ∧ HasId [outer] = false ∧ HasResourceId [outer] = true.
Proof. vm_compute. auto. Qed.

(** C10.  [HasId] is shallow: it is true exactly when an attribute of the
    sequence itself has the identifier flag, so it is false when no such
    attribute has it, whatever the flags of the nested attributes are. *)
Theorem HasId_is_shallow (attributes : list YamlConfigAttribute) :
  (HasId attributes = true ↔ ∃ a, a ∈ attributes ∧ Id a = true)
  ∧ ((∀ a, a ∈ attributes → Id a = false) → HasId attributes = false).
Proof.
  split; [apply HasId_true|].
  intros Hnone. apply not_true_is_false. rewrite HasId_true.
  intros (a & Ha & Hflag). rewrite (Hnone a Ha) in Hflag. discriminate.
Qed.

(** ** Properties of the merge *)

Lemma string_app_assoc (a b c : string) : (a +:+ b) +:+ c = a +:+ (b +:+ c).
Proof.
  induction a as [|x a IH]; [done|].
  change (String x ((a +:+ b) +:+ c) = String x (a +:+ (b +:+ c))). by rewrite IH.
Qed.

Lemma string_app_nil_r (a : string) : a +:+ "" = a.
Proof.
  induction a as [|x a IH]; [done|].
  change (String x (a +:+ "") = String x a). by rewrite IH.
Qed.

Lemma unlines_app ls1 ls2 : unlines (ls1 ++ ls2) = unlines ls1 +:+ unlines ls2.
Proof.
  induction ls1 as [|l ls1 IH]; simpl; [done|]. by rewrite IH, string_app_assoc.
Qed.

Lemma sectionLine_fold name lines st :
  result (fold_left (sectionLine (MatchString beginToken name) (MatchString endToken name))
            lines st) =
    result st +:+ unlines (sectionLines name (foundSection st) lines).
Proof.
  revert st; induction lines as [|line rest IH]; intros [res found]; simpl.
  - by rewrite string_app_nil_r.
  - rewrite IH. unfold sectionLine; simpl. destruct found; simpl.
    + destruct (MatchString endToken name line); simpl; by rewrite string_app_assoc.
    + destruct (MatchString beginToken name line); simpl; [|done].
      by rewrite string_app_assoc.
Qed.

(** [getTemplateSection] has a result for the literal names, and then it is
    the text of the lines that [sectionLines] collects. *)
Lemma getTemplateSection_literal content name :
  getTemplateSection content name =
    if literalName name
    then Some (unlines (sectionLines name false (ScanLines content)))
    else None.
Proof.
  unfold getTemplateSection, MustCompile. destruct (literalName name); [|done]. simpl.
  by rewrite sectionLine_fold.
Qed.

Lemma piecesText_cons output p pieces :
  piecesText output (p :: pieces) = unlines (pieceLines output p) +:+ piecesText output pieces.
Proof. unfold piecesText. by rewrite bind_cons, unlines_app. Qed.

Lemma withLF_unlines line : withLF line = unlines [line].
Proof. simpl. by rewrite string_app_nil_r. Qed.

(** The scan loop of the code stops without a result when it reaches the
    end-marker of an open section whose name is not literal; otherwise it
    adds the text of the pieces and ends in the section that [openSection]
    computes. *)
Lemma mergeLoop_pieces output lines st :
  mergeLoop output lines st =
    if forallb literalName (freshNames (mergePieces (currentSectionName st) lines))
    then Some {| currentSectionName := openSection (currentSectionName st) lines;
                 newContent :=
                   newContent st
                   +:+ piecesText output (mergePieces (currentSectionName st) lines) |}
    else None.
Proof.
  revert st; induction lines as [|line rest IH]; intros [current content]; simpl.
  - unfold piecesText. simpl. by rewrite string_app_nil_r.
  - unfold mergeLine, beginName, endsSection; simpl.
    destruct (String.eqb_spec current "") as [->|Hcur].
    + destruct (FindStringSubmatch beginToken line) as [m|]; simpl.
      * destruct (String.eqb m ""); simpl; rewrite IH; simpl; [|done].
        rewrite piecesText_cons. simpl pieceLines.
        by rewrite <- withLF_unlines, string_app_assoc.
      * rewrite IH. simpl. rewrite piecesText_cons. simpl pieceLines.
        by rewrite <- withLF_unlines, string_app_assoc.
    + destruct (FindStringSubmatch endToken line) as [m|]; simpl; [|by rewrite IH].
      destruct (String.eqb_spec m current) as [->|Hm]; simpl; [|by rewrite IH].
      rewrite getTemplateSection_literal.
      destruct (literalName current); simpl; [|done].
      rewrite IH. simpl. rewrite piecesText_cons. simpl pieceLines.
      by rewrite string_app_assoc.
Qed.

Lemma mergeLoop_app output pre rest st :
  mergeLoop output (pre ++ rest) st = mergeLoop output pre st ≫= mergeLoop output rest.
Proof.
  revert st; induction pre as [|line pre IH]; intros st; simpl; [done|].
  destruct (mergeLine output st line) as [st'|]; simpl; [apply IH|done].
Qed.

Lemma mergeExisting_pieces output existing :
  mergeExisting output existing =
    if forallb literalName (freshNames (mergePieces "" (ScanLines existing)))
    then Some (piecesText output (mergePieces "" (ScanLines existing)))
    else None.
Proof.
  unfold mergeExisting, mergeScan. rewrite mergeLoop_pieces. simpl.
  by destruct (forallb _ _).
Qed.

Lemma keptLines_sublist output pieces :
  keptLines pieces `sublist_of` pieces ≫= pieceLines output.
Proof.
  induction pieces as [|p pieces IH]; [done|].
  change (keptLines (p :: pieces) `sublist_of`
          pieceLines output p ++ (pieces ≫= pieceLines output)).
  destruct p as [line|name]; simpl.
  - by apply sublist_skip.
  - by apply sublist_inserts_l.
Qed.

Lemma beginName_Some line name :
  beginName line = Some name ↔ FindStringSubmatch beginToken line = Some name ∧ name ≠ "".
Proof.
  unfold beginName. destruct (FindStringSubmatch beginToken line) as [m|].
  - destruct (String.eqb_spec m "") as [->|Hm]; split.
    + discriminate.
    + intros [[= <-] Hname]. by destruct Hname.
    + intros [= <-]. by split.
    + by intros [[= <-] _].
  - split; [discriminate|]. by intros [? _].
Qed.

Lemma endsSection_true name line :
  endsSection name line = true ↔ FindStringSubmatch endToken line = Some name.
Proof.
  unfold endsSection. destruct (FindStringSubmatch endToken line) as [m|]; [|done].
  destruct (String.eqb_spec m name) as [->|Hm]; split; try done.
  intros [= ->]. by destruct Hm.
Qed.

Lemma firstEnd_Some name lines d :
  firstEnd name lines = Some d →
  ∃ mid e post,
    lines = mid ++ e :: post ∧ length mid = d
    ∧ Forall (λ l, endsSection name l = false) mid ∧ endsSection name e = true.
Proof.
  revert d; induction lines as [|line rest IH]; intros d; simpl; [done|].
  destruct (endsSection name line) eqn:Hend.
  - intros [= <-]. by exists [], line, rest.
  - destruct (firstEnd name rest) as [d'|]; [|done]. intros [= <-].
    destruct (IH d' eq_refl) as (mid & e & post & -> & Hlen & Hmid & He).
    exists (line :: mid), e, post. simpl. rewrite Hlen. by repeat constructor.
Qed.

Lemma firstEnd_is_Some name lines k e :
  lines !! k = Some e → endsSection name e = true → is_Some (firstEnd name lines).
Proof.
  revert k; induction lines as [|line rest IH]; intros k; [done|]. simpl.
  destruct (endsSection name line) eqn:Hend; [by eexists|].
  destruct k as [|k]; simpl.
  - intros [= ->]. congruence.
  - intros Hk He. destruct (IH k Hk He) as [d ->]. by eexists.
Qed.

Lemma firstEnd_None name lines :
  firstEnd name lines = None ↔ Forall (λ l, endsSection name l = false) lines.
Proof.
  induction lines as [|line rest IH]; simpl; [by split; [constructor|]|].
  destruct (endsSection name line) eqn:Hend.
  - split; [done|]. intros Hall. apply Forall_cons in Hall as [? _]. congruence.
  - rewrite Forall_cons, <- IH. destruct (firstEnd name rest); simpl; split; try done.
    by intros [_ ?].
Qed.

(** Inside a section, the scan drops lines up to the first end-marker of
    its name and puts the fresh text of the section in their place. *)
Lemma mergePieces_close name mid e post :
  name ≠ "" → Forall (λ l, endsSection name l = false) mid → endsSection name e = true →
  mergePieces name (mid ++ e :: post) = Fresh name :: mergePieces "" post.
Proof.
  intros Hname%String.eqb_neq Hmid He.
  induction Hmid as [|l mid Hl _ IH]; simpl; rewrite Hname.
  - by rewrite He.
  - by rewrite Hl.
Qed.


Lemma insideSection_true lines i j k :
  (i ≤ k ≤ j)%nat → sectionEnd lines i = Some j → insideSection lines k = true.
Proof.
  intros Hk Hend. unfold insideSection. apply existsb_exists. exists i. split.
  - apply in_seq. lia.
  - rewrite Hend. apply Nat.leb_le. lia.
Qed.

Lemma outsideRange_app lines p m1 m2 :
  outsideRange lines p (m1 + m2) = outsideRange lines p m1 ++ outsideRange lines (p + m1) m2.
Proof. unfold outsideRange. by rewrite seq_app, omap_app. Qed.

Lemma outsideRange_inside lines p m :
  (∀ k, (p ≤ k < p + m)%nat → insideSection lines k = true) → outsideRange lines p m = [].
Proof.
  revert p; induction m as [|m IH]; intros p Hin; [done|].
  unfold outsideRange. simpl. rewrite Hin by lia. apply IH. intros k Hk. apply Hin. lia.
Qed.

(** The lines outside all marked sections are among the lines the scan
    keeps, in their order.  Stated for a suffix [rest] of the file, read
    outside a section. *)
Lemma outside_sublist_kept (n : nat) :
  ∀ rest pre,
    length rest = n →
    (∀ i b name, rest !! i = Some b → beginName b = Some name →
                 is_Some (firstEnd name (drop (S i) rest))) →
    outsideRange (pre ++ rest) (length pre) (length rest)
      `sublist_of` keptLines (mergePieces "" rest).
Proof.
  induction n as [n IH] using lt_wf_ind. intros rest pre Hn Hterm.
  destruct rest as [|line rest']; [done|].
  simpl mergePieces. destruct (beginName line) as [name|] eqn:Hbegin.
  - destruct (Hterm 0%nat line name eq_refl Hbegin) as [d Hd].
    simpl in Hd. rewrite drop_0 in Hd.
    pose proof Hd as (mid & e & post & -> & Hlen & Hmid & He)%firstEnd_Some.
    apply beginName_Some in Hbegin as Hname. destruct Hname as [_ Hname].
    rewrite (mergePieces_close name mid e post) by done. simpl keptLines.
    replace (length (line :: mid ++ e :: post)) with ((2 + d) + length post)%nat
      by (simpl; rewrite length_app; simpl; lia).
    rewrite outsideRange_app, outsideRange_inside; simpl.
    + replace (pre ++ line :: mid ++ e :: post) with ((pre ++ line :: mid ++ [e]) ++ post)
        by (by rewrite <- !app_assoc; simpl; rewrite <- app_assoc).
      replace (length pre + S (S d))%nat with (length (pre ++ line :: mid ++ [e]))
        by (rewrite !length_app; simpl; rewrite length_app; simpl; lia).
      eapply IH; [|done|].
      * rewrite <- Hn. simpl. rewrite length_app. simpl. lia.
      * intros i b name' Hi Hb.
        specialize (Hterm (S (d + 1 + i)) b name').
        simpl in Hterm. rewrite lookup_app_r in Hterm by lia.
        replace (d + 1 + i - length mid)%nat with (S i) in Hterm by lia.
        simpl in Hterm. specialize (Hterm Hi Hb).
        rewrite drop_app_ge in Hterm by lia.
        replace (S (d + 1 + i) - length mid)%nat with (S (S i)) in Hterm by lia.
        done.
    + intros k Hk. apply (insideSection_true _ (length pre) (S (length pre) + d)); [lia|].
      unfold sectionEnd. rewrite lookup_app_r by lia. rewrite Nat.sub_diag. simpl.
      rewrite Hbegin. simpl.
      rewrite drop_app_ge by lia. replace (S (length pre) - length pre)%nat with 1%nat by lia.
      simpl. rewrite drop_0. by rewrite Hd.
  - simpl keptLines.
    change (length (line :: rest')) with (1 + length rest')%nat.
    rewrite outsideRange_app.
    replace (pre ++ line :: rest') with ((pre ++ [line]) ++ rest') by (by rewrite <- app_assoc).
    replace (length pre + 1)%nat with (length (pre ++ [line]))
      by (rewrite length_app; simpl; lia).
    assert (outsideRange ((pre ++ [line]) ++ rest') (length (pre ++ [line])) (length rest')
              `sublist_of` keptLines (mergePieces "" rest')) as Hrest.
    { eapply IH; [|done|].
      - rewrite <- Hn. simpl. lia.
      - intros i b name Hi Hb. exact (Hterm (S i) b name Hi Hb). }
    unfold outsideRange at 1. simpl.
    destruct (insideSection ((pre ++ [line]) ++ rest') (length pre)); simpl.
    + by apply sublist_cons.
    + rewrite <- app_assoc. rewrite lookup_app_r by lia. rewrite Nat.sub_diag. simpl.
      apply sublist_skip. by rewrite <- app_assoc in Hrest.
Qed.

Lemma wellTerminated_firstEnd lines :
  wellTerminated lines ↔
  ∀ i b name, lines !! i = Some b → beginName b = Some name →
              is_Some (firstEnd name (drop (S i) lines)).
Proof.
  split.
  - intros Hterm i b name Hi [Hb Hname]%beginName_Some.
    destruct (Hterm i b name Hi Hb Hname) as (j & e & Hij & Hj & He).
    apply (firstEnd_is_Some name _ (j - S i) e).
    + rewrite lookup_drop. by replace (S i + (j - S i))%nat with j by lia.
    + by apply endsSection_true.
  - intros Hterm i b name Hi Hb Hname.
    destruct (Hterm i b name Hi) as [d Hd]; [by apply beginName_Some|].
    apply firstEnd_Some in Hd as (mid & e & post & Hdrop & Hlen & _ & He).
    exists (S i + d)%nat, e. split; [lia|]. split; [|by apply endsSection_true].
    rewrite <- lookup_drop, Hdrop. rewrite lookup_app_r by lia.
    by rewrite Hlen, Nat.sub_diag.
Qed.

Lemma wellTerminatedb_true lines : wellTerminatedb lines = true → wellTerminated lines.
Proof.
  intros Hcheck. apply wellTerminated_firstEnd. intros i b name Hi Hb.
  unfold wellTerminatedb in Hcheck. rewrite forallb_forall in Hcheck.
  specialize (Hcheck i). rewrite Hi, Hb in Hcheck.
  eapply bool_decide_eq_true_1, Hcheck. apply in_seq.
  apply lookup_lt_Some in Hi. lia.
Qed.

Lemma fitting_all lines : Forall (λ l, fits l = true) lines → fitting lines = lines.
Proof. induction 1 as [|l lines Hl _ IH]; simpl; [done|]. by rewrite Hl, IH. Qed.

Lemma forallb_fits lines : forallb fits lines = true → Forall (λ l, fits l = true) lines.
Proof.
  intros Hall. apply Forall_forall. intros l Hl%list_elem_of_In.
  by apply (proj1 (forallb_forall _ _) Hall).
Qed.

(** When every line of the text fits the buffer, the scan reads all of
    them. *)
Lemma ScanLines_fitting content :
  Forall (λ l, fits l = true) (rawLines content) →
  ScanLines content = map dropCR (rawLines content).
Proof. intros Hfit. unfold ScanLines, tokens. by rewrite fitting_all. Qed.

Lemma mergePieces_Fresh name current lines :
  Fresh name ∈ mergePieces current lines → ∃ e, e ∈ lines ∧ endsSection name e = true.
Proof.
  revert current; induction lines as [|line rest IH]; intros current; simpl.
  - intros Hin. by apply elem_of_nil in Hin.
  - assert (∀ c, Fresh name ∈ mergePieces c rest →
                 ∃ e, e ∈ line :: rest ∧ endsSection name e = true) as Hrest.
    { intros c (e & He & Hend)%IH. exists e. split; [by right|done]. }
    destruct (String.eqb current "").
    + destruct (beginName line) as [name'|]; [apply Hrest|].
      intros [Hbad|Hin]%elem_of_cons; [done|]. by eapply Hrest.
    + destruct (endsSection current line) eqn:Hend; [|apply Hrest].
      intros [[= ->]|Hin]%elem_of_cons; [|by eapply Hrest].
      exists line. split; [left|done].
Qed.

Lemma freshNames_Fresh name pieces : name ∈ freshNames pieces ↔ Fresh name ∈ pieces.
Proof.
  unfold freshNames. rewrite list_elem_of_omap. split.
  - intros ([line|name'] & Hin & Heq); [done|]. by injection Heq as ->.
  - intros Hin. by exists (Fresh name).
Qed.

(** The merge has a result when the names of the end-marker lines of the
    existing file are literal. *)
Lemma mergePieces_literal current lines :
  (∀ e name, e ∈ lines → FindStringSubmatch endToken e = Some name → literalName name = true) →
  forallb literalName (freshNames (mergePieces current lines)) = true.
Proof.
  intros Hlit. apply forallb_forall. intros name Hin%list_elem_of_In.
  apply freshNames_Fresh, mergePieces_Fresh in Hin as (e & He & Hend).
  apply endsSection_true in Hend. by eapply Hlit.
Qed.

(** C3, as the code has it.  Take an existing file whose lines, cut at the
    line feeds, are all shorter than the buffer of the scanner, and in which
    every begin-marker line that has a name is followed by an end-marker line
    with that name.  When the names of its end-marker lines are literal
    text for a pattern the merge has a result; and a result of the merge is
    made of whole lines, ended by a line feed each, among which the lines of
    the file that lie outside all marked sections are found in their order,
    each without its line terminator (a line feed, with a carriage return
    before it or not). *)
Theorem outside_lines_survive (output existing : string) :
  Forall (λ l, fits l = true) (rawLines existing) →
  wellTerminated (map dropCR (rawLines existing)) →
  ((∀ e name, e ∈ map dropCR (rawLines existing) →
              FindStringSubmatch endToken e = Some name → literalName name = true) →
   is_Some (mergeExisting output existing))
  ∧ (∀ text,
       mergeExisting output existing = Some text →
       ∃ merged,
         text = unlines merged
         ∧ outsideLines (map dropCR (rawLines existing)) `sublist_of` merged).
Proof.
  intros Hfit Hterm. rewrite mergeExisting_pieces, (ScanLines_fitting _ Hfit). split.
  - intros Hlit. by rewrite mergePieces_literal.
  - intros text Htext.
    destruct (forallb _ _); [|done]. injection Htext as <-.
    eexists. split; [reflexivity|].
    etrans; [|apply keptLines_sublist].
    apply (outside_sublist_kept (length (map dropCR (rawLines existing))) _ []).
    + done.
    + by apply wellTerminated_firstEnd.
Qed.

Lemma outside_lines_survive_witness :
  let output := unlines ["package provider"; "//template:begin model"; "fresh";
                         "//template:end model"] in
  let existing := unlines ["package provider"; "// edited by hand";
                           "//template:begin model"; "stale"; "//template:end model";
                           "// more by hand"] in
  (Forall (λ l, fits l = true) (rawLines existing)
   ∧ wellTerminated (map dropCR (rawLines existing)))
  ∧ is_Some (mergeExisting output existing)
  ∧ ∃ merged,
      mergeExisting output existing = Some (unlines merged)
      ∧ outsideLines (map dropCR (rawLines existing)) `sublist_of` merged.
Proof.
  set (existing := unlines ["package provider"; "// edited by hand";
         "//template:begin model"; "stale"; "//template:end model"; "// more by hand"]).
  set (output := unlines ["package provider"; "//template:begin model"; "fresh";
         "//template:end model"]).
  assert (Forall (λ l, fits l = true) (rawLines existing)) as Hfit.
  { apply forallb_fits. vm_compute. reflexivity. }
  assert (wellTerminated (map dropCR (rawLines existing))) as Hterm.
  { apply wellTerminatedb_true. vm_compute. reflexivity. }
  destruct (outside_lines_survive output existing Hfit Hterm) as [Hsome Hmerged].
  split; [done|].
  assert (is_Some (mergeExisting output existing)) as [text Htext].
  { apply Hsome. intros e name He.
    change (map dropCR (rawLines existing)) with
      ["package provider"; "// edited by hand"; "//template:begin model"; "stale";
       "//template:end model"; "// more by hand"] in He.
    repeat (apply elem_of_cons in He as [->|He];
            [vm_compute; (discriminate || (intros [= <-]; reflexivity))|]).
    by apply elem_of_nil in He. }
  split; [by exists text|].
  destruct (Hmerged text Htext) as (merged & -> & Hsub). by exists merged.
Defined.

Example outside_lines_example :
  let existing := unlines ["package provider"; "// edited by hand";
                           "//template:begin model"; "stale"; "//template:end model";
                           "// more by hand"] in
  outsideLines (ScanLines existing) = ["package provider"; "// edited by hand"; "// more by hand"]
  ∧ mergeExisting
      (unlines ["package provider"; "//template:begin model"; "fresh"; "//template:end model"])
      existing
    = Some (unlines ["package provider"; "// edited by hand"; "//template:begin model"; "fresh";
                     "//template:end model"; "// more by hand"]).
Proof. vm_compute. auto. Qed.

(** C3, as it is stated, fails.  The scan of the existing file ends at a
    line that does not fit the buffer of the scanner, and the lines after it
    are not in the new content, although no line of the file is a
    begin-marker; and a line that ends in a carriage return and a line feed
    comes back without the carriage return. *)
Lemma lines_after_a_long_line_are_lost :
  let existing := withLF (longLine "x") +:+ withLF "// edited by hand" in
  (forallb (λ l, bool_decide (FindStringSubmatch beginToken l = None)) (rawLines existing) = true
   ∧ rawLines existing !! 1%nat = Some "// edited by hand"
   ∧ mergeExisting "" existing = Some "")
  ∧ mergeExisting "" ("// edited by hand" +:+ String CR (String LF ""))
    = Some (withLF "// edited by hand").
Proof. vm_compute. auto. Qed.

Lemma mergeScan_app output pre rest :
  mergeScan output (pre ++ rest) = mergeScan output pre ≫= mergeLoop output rest.
Proof. unfold mergeScan. apply mergeLoop_app. Qed.









(** ** Section extraction *)

Lemma sectionLines_absent name lines :
  Forall (λ l, MatchString beginToken name l = false) lines →
  sectionLines name false lines = [].
Proof. induction 1 as [|l lines Hl _ IH]; simpl; [done|]. by rewrite Hl. Qed.

Lemma sectionLines_inside name mid e post :
  Forall (λ l, MatchString endToken name l = false) mid →
  MatchString endToken name e = true →
  sectionLines name true (mid ++ e :: post) = mid ++ e :: sectionLines name false post.
Proof.
  intros Hmid He. induction Hmid as [|l mid Hl _ IH]; simpl.
  - by rewrite He.
  - rewrite Hl. simpl. by rewrite IH.
Qed.

(** X1.  For a name that is literal text for a pattern, extraction returns
    the marked block of the rendered text, from its begin-marker line to its
    end-marker line, both included, and the empty text when no line that the
    scan reads is a begin-marker of the name. *)
Theorem getTemplateSection_block (content name : string) (pre mid post : list string)
    (b e : string) :
  literalName name = true →
  (Forall (λ l, MatchString beginToken name l = false) (ScanLines content) →
   getTemplateSection content name = Some "")
  ∧ (ScanLines content = pre ++ b :: mid ++ e :: post →
     Forall (λ l, MatchString beginToken name l = false) (pre ++ post) →
     MatchString beginToken name b = true →
     Forall (λ l, MatchString endToken name l = false) mid →
     MatchString endToken name e = true →
     getTemplateSection content name = Some (unlines (b :: mid ++ [e]))).
Proof.
  intros Hlit. rewrite getTemplateSection_literal, Hlit. split.
  - intros Habsent. by rewrite sectionLines_absent.
  - intros -> [Hpre Hpost]%Forall_app Hb Hmid He. do 2 f_equal.
    induction Hpre as [|l pre Hl _ IH]; simpl.
    + rewrite Hb. f_equal. rewrite sectionLines_inside by done.
      by rewrite sectionLines_absent.
    + by rewrite Hl.
Qed.

Lemma getTemplateSection_block_witness :
  let content := unlines ["package provider"; "//template:begin model"; "fresh";
                          "//template:end model"; "// end"] in
  literalName "model" = true
  ∧ getTemplateSection content "model"
    = Some (unlines ["//template:begin model"; "fresh"; "//template:end model"]).
Proof.
  split; [reflexivity|].
  refine (proj2 (getTemplateSection_block _ "model" ["package provider"] ["fresh"]
                   ["// end"] "//template:begin model" "//template:end model" _)
            _ _ _ _ _).
  - reflexivity.
  - vm_compute. reflexivity.
  - repeat constructor.
  - reflexivity.
  - repeat constructor.
  - reflexivity.
Defined.

(** ** Properties of [renderTemplate] and [main] *)


Lemma rawLines_line line rest :
  noLineFeed line = true → rawLines (withLF line +:+ rest) = line :: rawLines rest.
Proof.
  induction line as [|c line IH]; [done|].
  change (withLF (String c line) +:+ rest) with (String c (withLF line +:+ rest)).
  simpl. case_bool_decide; [done|]. simpl. intros Hline. by rewrite IH.
Qed.

Lemma dropCR_plain line : endsWithCR line = false → dropCR line = line.
Proof.
  induction line as [|c line IH]; [done|]. simpl.
  destruct line as [|d line]; [by intros ->|]. intros Hline. by rewrite IH.
Qed.

Lemma rawLines_nil s : rawLines s = [] → s = "".
Proof.
  destruct s as [|c s]; [done|]. simpl. case_bool_decide; [done|].
  by destruct (rawLines s).
Qed.

(** The input after its first line. *)
Lemma rawLines_drop input line others :
  rawLines input = line :: others →
  rawLines (string_drop (S (String.length line)) input) = others.
Proof.
  revert line others; induction input as [|c input IH]; intros line others; [done|].
  simpl rawLines. case_bool_decide.
  - by intros [= <- <-].
  - destruct (rawLines input) as [|l ls] eqn:Hrest.
    + intros [= <- <-]. apply rawLines_nil in Hrest as ->. done.
    + intros [= <- <-]. simpl. by apply IH.
Qed.

(** [tokens] collects what the calls of [Scan] return, up to the first call
    that returns false. *)
Lemma tokens_Scan scanner :
  tokens scanner =
    match Scan scanner with
    | (Some token, scanner') => token :: tokens scanner'
    | (None, _) => []
    end.
Proof.
  destruct scanner as [input|buffer]; unfold tokens, Scan.
  - destruct (rawLines input) as [|line others] eqn:Hlines; [done|]. cbn [fitting].
    destruct (fits line); [|done]. cbn [map]. by rewrite (rawLines_drop _ _ _ Hlines).
  - by destruct (String.eqb buffer "").
Qed.

(** A text of plain lines that fit the buffer is scanned into these lines. *)
Lemma ScanLines_unlines lines :
  Forall plainLine lines → Forall (λ l, fits l = true) lines →
  ScanLines (unlines lines) = lines.
Proof.
  unfold ScanLines, tokens.
  induction 1 as [|line lines [Hlf Hcr] _ IH]; [done|]. simpl unlines.
  intros [Hfit Hfits]%Forall_cons. rewrite rawLines_line by done. cbn [fitting].
  rewrite Hfit. cbn [map]. rewrite dropCR_plain by done. f_equal. by apply IH.
Qed.


Section GeneratorProperties.

Variable Template : Type.
Variable Parse : string → string → option Template.
Variable Execute : Template → TemplateData → option string.
Variable Unmarshal : string → option YamlConfig.



(** The first loop of [main] writes no file, and it stops at a definition
    that cannot be read or decoded. *)
Lemma loadConfigs_reads_only files (fs : FS) :
  match loadConfigs Unmarshal files fs with
  | Done configs fs' =>
      fs' = fs
      ∧ Forall (λ name, ∃ content, fs !! (definitionsPath +:+ name) = Some content
                                   ∧ is_Some (Unmarshal content)) files
  | Fatal msg fs' =>
      fs' = fs ∧ (msg = "Error reading file" ∨ msg = "Error parsing yaml")
  | Uninterpreted _ => False
  end.
Proof.
  induction files as [|name rest IH]; simpl; [done|].
  unfold mbind, M_bind, os_ReadFile, Fatalf.
  destruct (fs !! (definitionsPath +:+ name)) as [content|] eqn:Hfile; [|by auto].
  destruct (Unmarshal content) as [config|] eqn:Hparse; [|by auto].
  destruct (loadConfigs Unmarshal rest fs) as [configs fs'|msg fs'|fs']; [|done|done].
  destruct IH as [-> Hrest]. unfold mret, M_ret. split; [done|].
  constructor; [|done]. exists content. by rewrite Hparse.
Qed.

(** C8.  When one of the definitions cannot be decoded the run stops in the
    first loop of [main], where all definitions are read and decoded and no
    file is written: nothing is augmented, rendered or written, and the file
    system is as it was. *)
Theorem schema_error_aborts_before_generation
    (fs : FS) (files : list string) (name content : string) :
  os_ReadDir definitionsPath fs = Done files fs →
  name ∈ files →
  fs !! (definitionsPath +:+ name) = Some content →
  Unmarshal content = None →
  ∃ msg, main Template Parse Execute Unmarshal fs = Fatal msg fs
         ∧ (msg = "Error reading file" ∨ msg = "Error parsing yaml").
Proof.
  intros Hdir Hname Hfile Hbad.
  unfold main. unfold mbind at 1. unfold M_bind. rewrite Hdir.
  unfold mbind at 1. unfold M_bind.
  pose proof (loadConfigs_reads_only files fs) as Hload.
  destruct (loadConfigs Unmarshal files fs) as [configs fs'|msg fs'|fs'].
  - destruct Hload as [_ Hall]. rewrite Forall_forall in Hall.
    destruct (Hall name Hname) as (content' & Hfile' & [config Hok]).
    congruence.
  - destruct Hload as [-> Hmsg]. by exists msg.
  - done.
Qed.

End GeneratorProperties.



Lemma schema_error_aborts_before_generation_witness :
  let fs : FS := {["./gen/definitions/host.yaml" := "name: [Host"]} in
  ∃ msg, main unit (λ _ text, Some ()) (λ _ _, Some "") (λ _, None) fs = Fatal msg fs
         ∧ (msg = "Error reading file" ∨ msg = "Error parsing yaml").
Proof.
  refine (schema_error_aborts_before_generation unit _ _ _ _
            ["host.yaml"] "host.yaml" "name: [Host" _ _ _ _).
  - vm_compute. reflexivity.
  - left.
  - reflexivity.
  - reflexivity.
Defined.

(** ** Further properties of the merge *)

Lemma openSection_close name mid e post :
  name ≠ "" → Forall (λ l, endsSection name l = false) mid → endsSection name e = true →
  openSection name (mid ++ e :: post) = openSection "" post.
Proof.
  intros Hname%String.eqb_neq Hmid He.
  induction Hmid as [|l mid Hl _ IH]; simpl; rewrite Hname.
  - by rewrite He.
  - by rewrite Hl.
Qed.

(** X3.  A section of the existing file that is opened outside a section
    and closed by the first end-marker line of its name is replaced as a
    whole, marker lines included, by the block that [getTemplateSection]
    extracts from the rendered text; the lines between the markers are not
    looked at, and the scan is outside a section afterwards.  Where
    [getTemplateSection] has no result for the name, the scan has none. *)
Theorem closed_section_is_replaced (output : string) (pre mid : list string)
    (b e name : string) (st : mergeState) :
  mergeScan output pre = Some st →
  currentSectionName st = "" →
  FindStringSubmatch beginToken b = Some name → name ≠ "" →
  Forall (λ l, FindStringSubmatch endToken l ≠ Some name) mid →
  FindStringSubmatch endToken e = Some name →
  mergeScan output (pre ++ b :: mid ++ [e]) =
    (newSection ← getTemplateSection output name;
     Some {| currentSectionName := ""; newContent := newContent st +:+ newSection |}).
Proof.
  intros Hpre Hout Hbegin Hname Hmid Hend.
  assert (Forall (λ l, endsSection name l = false) mid) as Hmid'.
  { eapply Forall_impl; [exact Hmid|]. intros l Hl. apply not_true_is_false.
    by rewrite endsSection_true. }
  apply endsSection_true in Hend.
  rewrite mergeScan_app, Hpre.
  change (Some st ≫= mergeLoop output (b :: mid ++ [e]))
    with (mergeLoop output (b :: mid ++ [e]) st).
  rewrite mergeLoop_pieces, Hout. simpl mergePieces. simpl openSection.
  rewrite (proj2 (beginName_Some b name)) by done.
  rewrite openSection_close, mergePieces_close by done.
  rewrite getTemplateSection_literal. simpl.
  destruct (literalName name); [|done]. simpl.
  unfold piecesText. simpl. by rewrite app_nil_r.
Qed.

Lemma closed_section_is_replaced_witness :
  let output := unlines ["//template:begin model"; "fresh"; "//template:end model"] in
  mergeScan output ["package provider"; "//template:begin model"; "stale"; "// edited";
                    "//template:end model"]
  = Some {| currentSectionName := "";
            newContent := unlines ["package provider"; "//template:begin model"; "fresh";
                                   "//template:end model"] |}.
Proof.
  refine (closed_section_is_replaced _ ["package provider"] ["stale"; "// edited"]
            "//template:begin model" "//template:end model" "model"
            {| currentSectionName := ""; newContent := unlines ["package provider"] |}
            _ _ _ _ _ _).
  - reflexivity.
  - reflexivity.
  - reflexivity.
  - discriminate.
  - repeat constructor; vm_compute; discriminate.
  - reflexivity.
Defined.

Lemma mergePieces_no_markers lines :
  Forall (λ l, beginName l = None) lines → mergePieces "" lines = map Kept lines.
Proof.
  induction 1 as [|l lines Hl _ IH]; simpl; [done|]. by rewrite Hl, IH.
Qed.

Lemma freshNames_Kept lines : freshNames (map Kept lines) = [].
Proof. induction lines as [|l lines IH]; [done|]. exact IH. Qed.

Lemma pieceLines_Kept output lines : map Kept lines ≫= pieceLines output = lines.
Proof.
  induction lines as [|l lines IH]; [done|].
  change (l :: (map Kept lines ≫= pieceLines output) = l :: lines). by rewrite IH.
Qed.

(** X4.  When no line that the scan reads from the existing file of a Go
    template is a begin-marker with a name, nothing of the rendered text
    reaches the file: the new content is the lines read, whatever was
    rendered.  These are all lines of the file, without the carriage return
    before a line feed and each ended by a line feed, when every line fits
    the buffer of the scanner. *)
Theorem file_without_markers_ignores_rendering (output existing : string) :
  Forall (λ l, beginName l = None) (ScanLines existing) →
  mergeExisting output existing = Some (unlines (ScanLines existing))
  ∧ (Forall (λ l, fits l = true) (rawLines existing) →
     mergeExisting output existing = Some (unlines (map dropCR (rawLines existing)))).
Proof.
  intros Hnone.
  assert (mergeExisting output existing = Some (unlines (ScanLines existing))) as Hmerge.
  { rewrite mergeExisting_pieces, mergePieces_no_markers by done.
    rewrite freshNames_Kept. simpl. unfold piecesText. by rewrite pieceLines_Kept. }
  split; [done|]. intros Hfit. by rewrite Hmerge, ScanLines_fitting.
Qed.

Lemma file_without_markers_ignores_rendering_witness :
  let existing := unlines ["package provider"; "//template:begin"; "// no marker has a name"] in
  Forall (λ l, beginName l = None) (ScanLines existing)
  ∧ mergeExisting (unlines ["//template:begin model"; "fresh"; "//template:end model"])
      existing
    = Some (unlines (ScanLines existing)).
Proof.
  assert (Forall (λ l, beginName l = None)
            (ScanLines (unlines ["package provider"; "//template:begin";
                                 "// no marker has a name"]))) as Hnone.
  { change (Forall (λ l, beginName l = None)
              ["package provider"; "//template:begin"; "// no marker has a name"]).
    repeat constructor. }
  split; [exact Hnone|].
  exact (proj1 (file_without_markers_ignores_rendering _ _ Hnone)).
Defined.

(** X5.  For a name that is literal text for a pattern: a section of the
    rendered text that has a begin-marker line and no end-marker line after
    it runs to the end of the lines read from the rendered text, and
    [getTemplateSection] returns the marker line and every line after it. *)
Theorem getTemplateSection_unterminated (content name : string) (pre rest : list string)
    (b : string) :
  literalName name = true →
  ScanLines content = pre ++ b :: rest →
  Forall (λ l, MatchString beginToken name l = false) pre →
  MatchString beginToken name b = true →
  Forall (λ l, MatchString endToken name l = false) rest →
  getTemplateSection content name = Some (unlines (b :: rest)).
Proof.
  intros Hlit Hlines Hpre Hb Hrest. rewrite getTemplateSection_literal, Hlit, Hlines.
  do 2 f_equal.
  clear Hlines. induction Hpre as [|l pre Hl _ IH]; simpl.
  - rewrite Hb. f_equal.
    induction Hrest as [|l rest Hl _ IH]; simpl; [done|]. rewrite Hl. simpl. by rewrite IH.
  - by rewrite Hl.
Qed.

Lemma getTemplateSection_unterminated_witness :
  literalName "model" = true
  ∧ getTemplateSection
      (unlines ["package provider"; "//template:begin model"; "fresh"; "func f() {}"]) "model"
    = Some (unlines ["//template:begin model"; "fresh"; "func f() {}"]).
Proof.
  split; [reflexivity|].
  refine (getTemplateSection_unterminated _ "model" ["package provider"]
            ["fresh"; "func f() {}"] "//template:begin model" _ _ _ _ _).
  - reflexivity.
  - vm_compute. reflexivity.
  - repeat constructor.
  - reflexivity.
  - repeat constructor.
Defined.

(** ** Further properties of [renderTemplate] and [main] *)

Lemma writesOnly_bind {A B} (W : string → Prop) (m : M A) (f : A → M B) :
  writesOnly W m → (∀ a, writesOnly W (f a)) → writesOnly W (m ≫= f).
Proof.
  intros Hm Hf fs p. unfold mbind, M_bind.
  destruct (Hm fs p) as [Hsame Hkeep].
  destruct (m fs) as [a fs1|msg fs1|fs1]; simpl in *; [|done|done].
  destruct (Hf a fs1 p) as [Hsame' Hkeep']. split.
  - destruct Hsame' as [Hsame'|?]; [|by right].
    destruct Hsame as [Hsame|?]; [|by right]. left. congruence.
  - auto.
Qed.

Lemma writesOnly_weaken {A} (W W' : string → Prop) (m : M A) :
  (∀ p, W p → W' p) → writesOnly W m → writesOnly W' m.
Proof.
  intros Hsub Hm fs p. destruct (Hm fs p) as [[?|?] ?]; split; auto.
Qed.

Lemma writesOnly_mret {A} (W : string → Prop) (a : A) : writesOnly W (mret a).
Proof. intros fs p. split; [by left|done]. Qed.

Lemma writesOnly_Fatalf {A} (W : string → Prop) msg : writesOnly W (@Fatalf A msg).
Proof. intros fs p. split; [by left|done]. Qed.

Lemma writesOnly_uninterpreted {A} (W : string → Prop) : writesOnly W (@uninterpreted A).
Proof. intros fs p. split; [by left|done]. Qed.

Lemma writesOnly_ReadFile (W : string → Prop) path : writesOnly W (os_ReadFile path).
Proof. intros fs p. split; [by left|done]. Qed.

Lemma writesOnly_Create path content : writesOnly (λ p, p = path) (os_Create path content).
Proof.
  intros fs p. unfold os_Create. destruct (blocked fs path); simpl.
  { split; [by left|done]. }
  destruct (decide (p = path)) as [->|Hp].
  - split; [by right|]. intros _. rewrite lookup_insert_eq. by eexists.
  - rewrite lookup_insert_ne by done. split; [by left|done].
Qed.

Lemma writesOnly_writeOutput templatePath outputPath output :
  writesOnly (λ p, p = outputPath) (writeOutput templatePath outputPath output).
Proof.
  unfold writeOutput. destruct (normalPath outputPath); simpl;
    [|apply writesOnly_uninterpreted].
  apply writesOnly_bind; [apply writesOnly_ReadFile|]. intros existingFile.
  destruct (outputBytes _ _ _); [apply writesOnly_Create|apply writesOnly_uninterpreted].
Qed.

Section GeneratorFrame.

Variable Template : Type.
Variable Parse : string → string → option Template.
Variable Execute : Template → TemplateData → option string.
Variable Unmarshal : string → option YamlConfig.

(** X6.  [renderTemplate] writes one file or none.  When it stops in a
    fatal error (the template cannot be opened, parsed or executed, or the
    output file cannot be created) or at a step that is not interpreted, the
    file system is as it was; when it returns, the output path is in normal
    form, the file there exists and every other file is as it was. *)
Theorem renderTemplate_changes_output_only
    (templatePath outputPath : string) (config : TemplateData) (fs : FS) :
  match renderTemplate Template Parse Execute templatePath outputPath config fs with
  | Fatal _ fs' => fs' = fs
  | Uninterpreted fs' => fs' = fs
  | Done _ fs' =>
      normalPath outputPath = true
      ∧ is_Some (fs' !! outputPath) ∧ ∀ p, p ≠ outputPath → fs' !! p = fs !! p
  end.
Proof.
  unfold renderTemplate, mbind, M_bind, os_ReadFile, Fatalf.
  destruct (fs !! templatePath) as [file|]; [|done].
  destruct (Parse _ _) as [template|]; [|done].
  destruct (Execute _ _) as [output|]; [|done].
  unfold writeOutput. destruct (normalPath outputPath); simpl; [|done].
  unfold mbind, M_bind, os_ReadFile, uninterpreted, os_Create.
  destruct (outputBytes _ _ _) as [bytes|]; [|done].
  destruct (blocked fs outputPath); [done|]. split; [done|]. split.
  - rewrite lookup_insert_eq. by eexists.
  - intros p Hp. by rewrite lookup_insert_ne.
Qed.

Lemma renderTemplate_writesOnly templatePath outputPath config :
  writesOnly (λ p, p = outputPath)
    (renderTemplate Template Parse Execute templatePath outputPath config).
Proof.
  unfold renderTemplate. apply writesOnly_bind; [apply writesOnly_ReadFile|].
  intros [file|]; [|apply writesOnly_Fatalf].
  destruct (Parse _ _) as [template|]; [|apply writesOnly_Fatalf].
  destruct (Execute _ _) as [output|]; [|apply writesOnly_Fatalf].
  apply writesOnly_writeOutput.
Qed.

Lemma renderTemplates_writesOnly ts config :
  writesOnly (λ p, p ∈ map (λ t, prefix t +:+ SnakeCase (Name config) +:+ suffix t) ts)
    (renderTemplates Template Parse Execute ts config).
Proof.
  induction ts as [|t ts IH]; simpl; [apply writesOnly_mret|].
  apply writesOnly_bind.
  - eapply writesOnly_weaken; [|apply renderTemplate_writesOnly].
    intros p ->. left.
  - intros _. eapply writesOnly_weaken; [|exact IH]. intros p Hp. by right.
Qed.

Lemma augmentConfig_Name config : Name (augmentConfig config) = Name config.
Proof. by rewrite augmentConfig_unfold. Qed.

Lemma generate_writesOnly configs :
  writesOnly (λ p, ∃ config, config ∈ configs ∧ p ∈ outputPaths config)
    (generate Template Parse Execute configs).
Proof.
  induction configs as [|config configs IH]; cbn [generate]; [apply writesOnly_mret|].
  apply writesOnly_bind.
  - eapply writesOnly_weaken; [|apply renderTemplates_writesOnly].
    intros p Hp. exists config. split; [left|].
    unfold outputPaths. by rewrite <- augmentConfig_Name.
  - intros _. apply writesOnly_bind; [|intros names; apply writesOnly_mret].
    eapply writesOnly_weaken; [|exact IH].
    intros p (c & Hc & Hp). exists c. split; [by right|done].
Qed.

(** The first loop of [main] returns the decoded definitions in the order
    of the file names. *)
Lemma loadConfigs_decoded files (fs fs' : FS) configs :
  loadConfigs Unmarshal files fs = Done configs fs' →
  fs' = fs
  ∧ Forall2 (λ file config, ∃ content, fs !! (definitionsPath +:+ file) = Some content
                                       ∧ Unmarshal content = Some config) files configs.
Proof.
  revert configs; induction files as [|file files IH]; intros configs; simpl.
  - intros [= <- <-]. by split.
  - unfold mbind, M_bind, os_ReadFile, Fatalf.
    destruct (fs !! (definitionsPath +:+ file)) as [content|] eqn:Hfile; [|done].
    destruct (Unmarshal content) as [config|] eqn:Hparse; [|done].
    destruct (loadConfigs Unmarshal files fs) as [configs' fs1| |] eqn:Hload; [|done|done].
    intros [= <- <-]. destruct (IH configs' eq_refl) as [-> Hrest].
    split; [done|]. constructor; [by exists content|done].
Qed.

Lemma generate_names configs (fs fs' : FS) names :
  generate Template Parse Execute configs fs = Done names fs' →
  names = map Name configs.
Proof.
  revert fs fs' names; induction configs as [|config configs IH]; intros fs fs' names;
    cbn [generate].
  - by intros [= <- _].
  - unfold mbind, M_bind.
    destruct (renderTemplates _ _ _ _ _ _) as [[] fs1| |]; [|done|done].
    destruct (generate _ _ _ configs fs1) as [names' fs2| |] eqn:Hrest; [|done|done].
    intros [= <- _]. by rewrite augmentConfig_Name, (IH _ _ _ Hrest).
Qed.

(** X7.  However [main] ends, it removes no file, and a file whose content
    it creates or changes is the provider file, the changelog guide or an
    output path (prefix, snake-cased name, suffix of one of the templates) of
    a definition that it decoded from an entry of the definitions directory.
    In particular a run that stops in a fatal error leaves the files written
    before the error in place. *)
Theorem main_writes_output_paths_only (fs : FS) (files : list string) (p : string) :
  os_ReadDir definitionsPath fs = Done files fs →
  (is_Some (fs !! p) →
   is_Some (outcome_fs (main Template Parse Execute Unmarshal fs) !! p))
  ∧ (outcome_fs (main Template Parse Execute Unmarshal fs) !! p ≠ fs !! p →
     p = providerLocation ∨ p = changelogLocation
     ∨ ∃ file content config,
         file ∈ files
         ∧ fs !! (definitionsPath +:+ file) = Some content
         ∧ Unmarshal content = Some config
         ∧ p ∈ outputPaths config).
Proof.
  intros Hdir.
  set (W := λ q : string,
         q = providerLocation ∨ q = changelogLocation
         ∨ ∃ file content config,
             file ∈ files
             ∧ fs !! (definitionsPath +:+ file) = Some content
             ∧ Unmarshal content = Some config
             ∧ q ∈ outputPaths config).
  cut (changesOnly W fs (main Template Parse Execute Unmarshal fs)).
  { intros Hmain. destruct (Hmain p) as [[Hsame|HW] Hkeep]; split; try done. }
  clear p.
  assert (∀ configs,
    Forall2 (λ file config, ∃ content, fs !! (definitionsPath +:+ file) = Some content
                                       ∧ Unmarshal content = Some config) files configs →
    writesOnly W (
      providerConfig ← generate Template Parse Execute configs;
      renderTemplate Template Parse Execute providerTemplate providerLocation
        (DataNames providerConfig);;
      changelog ← os_ReadFile changelogOriginal;
      match changelog with
      | None => Fatalf "Error reading changelog"
      | Some changelog =>
          renderTemplate Template Parse Execute changelogTemplate changelogLocation
            (DataText changelog)
      end)) as Hrest.
  { intros configs Hdecoded. apply writesOnly_bind.
    - eapply writesOnly_weaken; [|apply generate_writesOnly].
      intros q (config & Hconfig & Hq). right; right.
      apply list_elem_of_lookup in Hconfig as [i Hi].
      destruct (Forall2_lookup_r _ _ _ _ _ Hdecoded Hi)
        as (file & Hfiles & content & Hfile & Hparse).
      exists file, content, config. split; [|done].
      by eapply list_elem_of_lookup_2.
    - intros names. apply writesOnly_bind.
      + eapply writesOnly_weaken; [|apply renderTemplate_writesOnly]. intros q ->. by left.
      + intros _. apply writesOnly_bind; [apply writesOnly_ReadFile|].
        intros [changelog|]; [|apply writesOnly_Fatalf].
        eapply writesOnly_weaken; [|apply renderTemplate_writesOnly].
        intros q ->. right. by left. }
  unfold main. unfold mbind at 1. unfold M_bind. rewrite Hdir.
  unfold mbind at 1. unfold M_bind.
  pose proof (loadConfigs_reads_only Unmarshal files fs) as Hfatal.
  destruct (loadConfigs Unmarshal files fs) as [configs fs1|msg fs1|fs1] eqn:Hload.
  - apply loadConfigs_decoded in Hload as [-> Hdecoded].
    exact (Hrest configs Hdecoded fs).
  - destruct Hfatal as [-> _]. intros p. simpl. split; [by left|done].
  - done.
Qed.

(** X8.  The names handed to the provider template are the names of the
    decoded definitions, one for each file of the definitions directory and
    in the order of the files. *)
Theorem provider_names_follow_files (files : list string) (configs : list YamlConfig)
    (names : list string) (fs fs1 fs2 : FS) :
  loadConfigs Unmarshal files fs = Done configs fs1 →
  generate Template Parse Execute configs fs1 = Done names fs2 →
  Forall2 (λ file name, ∃ content config,
             fs !! (definitionsPath +:+ file) = Some content
             ∧ Unmarshal content = Some config ∧ name = Name config) files names.
Proof.
  intros [-> Hdecoded]%loadConfigs_decoded ->%generate_names.
  apply Forall2_fmap_r. eapply Forall2_impl; [exact Hdecoded|].
  intros file config (content & Hfile & Hparse). by exists content, config.
Qed.

End GeneratorFrame.

(** ** Further properties of the augmentation *)

Lemma allBytes_app P a b : allBytes P (a +:+ b) = allBytes P a && allBytes P b.
Proof.
  induction a as [|c a IH]; [done|].
  change (P c && allBytes P (a +:+ b) = P c && allBytes P a && allBytes P b).
  by rewrite IH, andb_assoc.
Qed.

Lemma lower_byte_not_upper c : IsUpper (lower_byte c) = false.
Proof. by destruct c as [[] [] [] [] [] [] [] []]. Qed.

Lemma ToLower_not_upper s : allBytes (λ c, negb (IsUpper c)) (ToLower s) = true.
Proof.
  induction s as [|c s IH]; [done|]. simpl. by rewrite lower_byte_not_upper, IH.
Qed.

Lemma Join_cons e rest sep :
  Join (e :: rest) sep = e +:+ match rest with [] => "" | _ => sep +:+ Join rest sep end.
Proof. destruct rest; simpl; [by rewrite string_app_nil_r|done]. Qed.

Lemma Join_allBytes P words sep :
  allBytes P sep = true → Forall (λ w, allBytes P w = true) words →
  allBytes P (Join words sep) = true.
Proof.
  intros Hsep. induction 1 as [|w words Hw _ IH]; [done|].
  rewrite Join_cons, allBytes_app, Hw. destruct words; [done|].
  by rewrite allBytes_app, Hsep, IH.
Qed.

Lemma deriveWords_lower s : Forall (λ w, allBytes (λ c, negb (IsUpper c)) w = true) (deriveWords s).
Proof.
  remember (String.length s) as n eqn:Hn. revert s Hn.
  induction n as [n IH] using lt_wf_ind. intros s ->.
  destruct s as [|c s]; simp deriveWords; [done|]. cbv zeta.
  constructor; [apply ToLower_not_upper|].
  eapply IH; [|done]. unfold slice_from. rewrite string_drop_length.
  pose proof (wordLength_bounds (String c s) ltac:(done)). unfold len in *.
  simpl String.length in *. lia.
Qed.

Lemma deriveTfName_empty s : deriveTfName s = "" ↔ s = "".
Proof.
  split; [|by intros ->].
  destruct s as [|c s]; [done|]. unfold deriveTfName. simp deriveWords. cbv zeta.
  rewrite Join_cons.
  destruct (wordLength_nextWord (String c s) ltac:(done)) as [_ ->].
  unfold nextWord. simpl firstUpperAfterHead.
  destruct (findUpper 1 s) as [q|] eqn:Hq; [|done].
  apply findUpper_bounds in Hq. destruct q as [|q]; [lia|done].
Qed.

(** X9.  After augmentation an attribute has no external name exactly when
    it had none and its model-side name is empty too; a name that was given
    is kept; a derived name holds no upper case letter. *)
Theorem augmented_name_cases (attr : YamlConfigAttribute) :
  (TfName (augmentAttribute attr) = "" ↔ TfName attr = "" ∧ ModelName attr = "")
  ∧ (TfName attr ≠ "" → TfName (augmentAttribute attr) = TfName attr)
  ∧ (TfName attr = "" →
     allBytes (λ c, negb (IsUpper c)) (TfName (augmentAttribute attr)) = true).
Proof.
  rewrite augmentAttribute_TfName.
  destruct (String.eqb_spec (TfName attr) "") as [Hnone|Hgiven].
  - rewrite deriveTfName_empty. split; [|split]; [tauto|done|].
    intros _. apply Join_allBytes; [done|apply deriveWords_lower].
  - split; [tauto|done].
Qed.

Lemma augmentAttribute_flags attr :
  Id (augmentAttribute attr) = Id attr
  ∧ Reference (augmentAttribute attr) = Reference attr
  ∧ ResourceId (augmentAttribute attr) = ResourceId attr.
Proof. by rewrite augmentAttribute_unfold. Qed.

Lemma augmentAttribute_Attributes attr :
  Attributes (augmentAttribute attr) =
    if String.eqb (Type_ attr) "List" || String.eqb (Type_ attr) "Set"
    then map augmentAttribute (Attributes attr) else Attributes attr.
Proof. by rewrite augmentAttribute_unfold. Qed.

Lemma HasResourceId_augmented attributes :
  HasResourceId (map augmentAttribute attributes) = HasResourceId attributes.
Proof.
  assert (∀ attr rest,
    HasResourceId (map augmentAttribute (Attributes attr)) = HasResourceId (Attributes attr) →
    HasResourceId (map augmentAttribute rest) = HasResourceId rest →
    HasResourceId (map augmentAttribute (attr :: rest)) = HasResourceId (attr :: rest)) as Hstep.
  { intros attr rest Hnested Hrest. simpl map. rewrite !HasResourceId_cons.
    destruct (augmentAttribute_flags attr) as (_ & _ & ->).
    rewrite augmentAttribute_Attributes, Hrest.
    destruct (String.eqb (Type_ attr) "List" || String.eqb (Type_ attr) "Set"); [|done].
    by rewrite length_map, Hnested. }
  assert (∀ attr, HasResourceId (map augmentAttribute (Attributes attr))
                  = HasResourceId (Attributes attr)) as Hnested.
  { induction attr as [attr IH] using attribute_nested_ind.
    induction IH as [|b nested Hb _ IHn]; [done|]. by apply Hstep. }
  induction attributes as [|attr rest IH]; [done|]. by apply Hstep.
Qed.

(** X10.  Augmentation changes no flag: the three predicate scans give the
    same answer on the attributes of the augmented definition as on those
    of the definition as it was decoded. *)
Theorem scans_unchanged_by_augmentation (config : YamlConfig) :
  HasId (ConfigAttributes (augmentConfig config)) = HasId (ConfigAttributes config)
  ∧ HasReference (ConfigAttributes (augmentConfig config))
    = HasReference (ConfigAttributes config)
  ∧ HasResourceId (ConfigAttributes (augmentConfig config))
    = HasResourceId (ConfigAttributes config).
Proof.
  rewrite augmentConfig_unfold. cbn [ConfigAttributes].
  split; [|split; [|apply HasResourceId_augmented]].
  - induction (ConfigAttributes config) as [|attr rest IH]; [done|]. simpl.
    destruct (augmentAttribute_flags attr) as (-> & _ & _). by rewrite IH.
  - induction (ConfigAttributes config) as [|attr rest IH]; [done|]. simpl.
    destruct (augmentAttribute_flags attr) as (_ & -> & _). by rewrite IH.
Qed.

(** ** Properties of the name helpers *)

Lemma ToLower_app a b : ToLower (a +:+ b) = ToLower a +:+ ToLower b.
Proof.
  induction a as [|c a IH]; [done|].
  change (String (lower_byte c) (ToLower (a +:+ b))
          = String (lower_byte c) (ToLower a +:+ ToLower b)). by rewrite IH.
Qed.

Lemma lower_byte_idempotent c : lower_byte (lower_byte c) = lower_byte c.
Proof. by destruct c as [[] [] [] [] [] [] [] []]. Qed.

Lemma ToLower_idempotent s : ToLower (ToLower s) = ToLower s.
Proof. induction s as [|c s IH]; [done|]. simpl. by rewrite lower_byte_idempotent, IH. Qed.

Lemma IsSpace_lower_byte c : IsSpace (lower_byte c) = IsSpace c.
Proof. by destruct c as [[] [] [] [] [] [] [] []]. Qed.

Lemma replaceHyphens_ToLower s : replaceHyphens (ToLower s) = ToLower (replaceHyphens s).
Proof.
  induction s as [|c s IH]; [done|]. simpl. rewrite IH. f_equal.
  by destruct c as [[] [] [] [] [] [] [] []].
Qed.

Lemma replaceHyphens_idempotent s : replaceHyphens (replaceHyphens s) = replaceHyphens s.
Proof.
  induction s as [|c s IH]; [done|]. simpl. rewrite IH. f_equal.
  by repeat case_bool_decide.
Qed.

Lemma Fields_go_ToLower cur s :
  Fields_go (ToLower <$> cur) (ToLower s) = map ToLower (Fields_go cur s).
Proof.
  revert cur; induction s as [|c s IH]; intros cur; simpl.
  - by destruct cur.
  - rewrite IsSpace_lower_byte. destruct (IsSpace c).
    + rewrite map_app, <- (IH None). by destruct cur.
    + rewrite <- IH. f_equal. destruct cur as [w|]; simpl; [|done].
      by rewrite ToLower_app.
Qed.

(** X12.  [SnakeCase] does not see the case of letters, nor whether words
    are joined by hyphens or by spaces: definitions whose names differ in
    these only are written to the same output paths. *)
Theorem SnakeCase_ignores_case_and_hyphens (s : string) :
  SnakeCase (ToLower s) = SnakeCase s ∧ SnakeCase (replaceHyphens s) = SnakeCase s.
Proof.
  unfold SnakeCase. split.
  - rewrite replaceHyphens_ToLower. unfold Fields.
    rewrite (Fields_go_ToLower None). rewrite map_map.
    f_equal. apply map_ext. intros w. apply ToLower_idempotent.
  - by rewrite replaceHyphens_idempotent.
Qed.

Lemma Fields_go_fields (Q : ascii → bool) cur s :
  allBytes Q s = true →
  (∀ w, cur = Some w → w ≠ "" ∧ allBytes (λ c, negb (IsSpace c) && Q c) w = true) →
  Forall (λ w, w ≠ "" ∧ allBytes (λ c, negb (IsSpace c) && Q c) w = true) (Fields_go cur s).
Proof.
  revert cur; induction s as [|c s IH]; intros cur; simpl.
  - intros _ Hcur. destruct cur as [w|]; [|done]. constructor; [by apply Hcur|done].
  - intros [Hc Hs]%andb_true_iff Hcur. destruct (IsSpace c) eqn:Hspace.
    + apply Forall_app. split; [|by apply IH].
      destruct cur as [w|]; [|done]. constructor; [by apply Hcur|done].
    + apply IH; [done|]. intros w [= <-]. split; [by destruct cur as [[|]|]|].
      rewrite allBytes_app. destruct cur as [w|]; simpl.
      * destruct (Hcur w eq_refl) as [_ ->]. by rewrite Hspace, Hc.
      * by rewrite Hspace, Hc.
Qed.

Lemma Fields_go_one cur s :
  allBytes (λ c, negb (IsSpace c)) s = true →
  Fields_go cur s = if decide (cur = None ∧ s = "") then [] else [default "" cur +:+ s].
Proof.
  revert cur; induction s as [|c s IH]; intros cur; simpl.
  - intros _. case_decide as Hempty.
    + by destruct Hempty as [-> _].
    + destruct cur as [w|]; simpl; [by rewrite string_app_nil_r|]. by destruct Hempty.
  - intros [Hc Hs]%andb_true_iff. apply negb_true_iff in Hc. rewrite Hc.
    rewrite IH by done.
    destruct (decide (Some (default "" cur +:+ String c "") = None ∧ s = ""))
      as [[? _]|_]; [done|].
    destruct (decide (cur = None ∧ String c s = "")) as [[_ ?]|_]; [done|]. simpl.
    by rewrite string_app_assoc.
Qed.

Lemma replaceHyphens_none s :
  allBytes (λ c, negb (bool_decide (c = "-"%char))) s = true → replaceHyphens s = s.
Proof.
  induction s as [|c s IH]; [done|]. simpl. intros [Hc Hs]%andb_true_iff.
  rewrite IH by done. apply negb_true_iff in Hc. by rewrite Hc.
Qed.

Lemma ToLower_none s : allBytes (λ c, negb (IsUpper c)) s = true → ToLower s = s.
Proof.
  induction s as [|c s IH]; [done|]. simpl. intros [Hc Hs]%andb_true_iff.
  rewrite IH by done. unfold lower_byte. apply negb_true_iff in Hc. by rewrite Hc.
Qed.

Lemma allBytes_impl (P Q : ascii → bool) s :
  (∀ c, P c = true → Q c = true) → allBytes P s = true → allBytes Q s = true.
Proof.
  intros HPQ. induction s as [|c s IH]; [done|]. simpl.
  intros [Hc Hs]%andb_true_iff. by rewrite (HPQ c Hc), IH.
Qed.

(** A text of snake bytes is what [SnakeCase] makes of it. *)
Lemma SnakeCase_fixed r : allBytes isSnakeByte r = true → SnakeCase r = r.
Proof.
  intros Hr. unfold SnakeCase, Fields.
  rewrite replaceHyphens_none, Fields_go_one.
  - case_decide as Hempty; [by destruct Hempty as [_ ->]|]. simpl.
    apply ToLower_none. eapply allBytes_impl; [|exact Hr].
    unfold isSnakeByte. intros c. rewrite !andb_true_iff. tauto.
  - eapply allBytes_impl; [|exact Hr].
    unfold isSnakeByte. intros c. rewrite !andb_true_iff. tauto.
  - eapply allBytes_impl; [|exact Hr].
    unfold isSnakeByte. intros c. rewrite !andb_true_iff. tauto.
Qed.

(** The words of a name: in lower case, without white space or hyphen, and
    none of them empty. *)
Lemma snake_words s :
  Forall (λ w, w ≠ "" ∧ allBytes isSnakeByte w = true)
    (map ToLower (Fields (replaceHyphens s))).
Proof.
  apply Forall_fmap.
  assert (allBytes (λ c, negb (bool_decide (c = "-"%char))) (replaceHyphens s) = true) as Hs.
  { induction s as [|c s IH]; [done|]. simpl. rewrite IH, andb_true_r.
    destruct (decide (c = "-"%char)) as [->|Hc]; [done|].
    by rewrite (bool_decide_eq_false_2 (c = "-"%char)), bool_decide_eq_false_2. }
  eapply Forall_impl; [apply (Fields_go_fields _ None _ Hs); by intros|].
  intros w [Hne Hw]. simpl. split; [by destruct w|]. clear Hs Hne.
  induction w as [|c w IH]; [done|]. simpl in *.
  apply andb_true_iff in Hw as [Hc Hw]. rewrite (IH Hw), andb_true_r.
  unfold isSnakeByte. rewrite IsSpace_lower_byte, lower_byte_not_upper.
  apply andb_true_iff in Hc as [-> Hc]. simpl. rewrite andb_true_r.
  apply negb_true_iff in Hc. apply bool_decide_eq_false in Hc.
  apply negb_true_iff, bool_decide_eq_false. intros Hlow. apply Hc. revert Hlow.
  by destruct c as [[] [] [] [] [] [] [] []].
Qed.

Lemma SnakeCase_snake_bytes s : allBytes isSnakeByte (SnakeCase s) = true.
Proof.
  unfold SnakeCase. apply Join_allBytes; [done|].
  eapply Forall_impl; [apply snake_words|]. by intros w [_ ?].
Qed.

(** X11.  For a name of ASCII text: the result of [SnakeCase] holds no
    white space, no hyphen and no upper case letter, and [SnakeCase] leaves
    every such text as it is: it is idempotent.  A name of white space and
    hyphens only gives the empty text. *)
Theorem SnakeCase_normal_form (s : string) :
  isASCII s = true →
  allBytes isSnakeByte (SnakeCase s) = true
  ∧ SnakeCase (SnakeCase s) = SnakeCase s
  ∧ (allBytes (λ c, IsSpace c || bool_decide (c = "-"%char)) s = true → SnakeCase s = "").
Proof.
  intros _. split; [apply SnakeCase_snake_bytes|]. split.
  - apply SnakeCase_fixed, SnakeCase_snake_bytes.
  - intros Hblank. unfold SnakeCase, Fields.
    assert (Fields_go None (replaceHyphens s) = []) as ->; [|done].
    induction s as [|c s IH]; [done|]. simpl in *.
    apply andb_true_iff in Hblank as [Hc Hs].
    case_bool_decide; [by rewrite IH|].
    rewrite orb_false_r in Hc. by rewrite Hc, IH.
Qed.

Lemma SnakeCase_normal_form_witness :
  isASCII "Access-Control  Policy" = true
  ∧ SnakeCase "Access-Control  Policy" = "access_control_policy"
  ∧ SnakeCase (SnakeCase "Access-Control  Policy") = SnakeCase "Access-Control  Policy".
Proof.
  split; [reflexivity|]. split; [reflexivity|].
  exact (proj1 (proj2 (SnakeCase_normal_form "Access-Control  Policy" eq_refl))).
Defined.

(** X14.  [contains] is true exactly when the text is an element of the
    sequence. *)
Theorem contains_is_membership (s : list string) (str : string) :
  contains s str = true ↔ str ∈ s.
Proof.
  induction s as [|v rest IH]; simpl.
  - split; [done|]. by intros ?%elem_of_nil.
  - rewrite elem_of_cons. destruct (String.eqb_spec v str) as [->|Hne].
    + split; [by left|done].
    + rewrite IH. split; [by right|]. by intros [->|?].
Qed.

Lemma lowerRun_afterRun s : lowerRun s +:+ afterRun s = s.
Proof.
  induction s as [|c s IH]; [done|]. simpl. destruct (IsUpper c); [done|].
  change (String c (lowerRun s +:+ afterRun s) = String c s). by rewrite IH.
Qed.

Lemma afterRun_length s : (String.length (afterRun s) ≤ String.length s)%nat.
Proof. induction s as [|c s IH]; simpl; [done|]. destruct (IsUpper c); simpl; lia. Qed.

Lemma findUpper_runs s p :
  match findUpper p s with
  | Some q => string_take (q - p) s = lowerRun s ∧ string_drop (q - p) s = afterRun s
  | None => lowerRun s = s ∧ afterRun s = ""
  end.
Proof.
  revert p; induction s as [|c s IH]; intros p; simpl; [done|].
  destruct (IsUpper c).
  - by rewrite Nat.sub_diag.
  - specialize (IH (S p)). destruct (findUpper (S p) s) as [q|] eqn:Hq.
    + apply findUpper_bounds in Hq. replace (q - p)%nat with (S (q - S p)) by lia.
      simpl. destruct IH as [-> ->]. done.
    + destruct IH as [-> ->]. done.
Qed.

(** The loop of [augmentAttribute] cuts before every upper case letter
    after the first byte. *)
Lemma deriveWords_cons c s :
  deriveWords (String c s) = ToLower (String c (lowerRun s)) :: deriveWords (afterRun s).
Proof.
  simp deriveWords. cbv zeta.
  destruct (wordLength_nextWord (String c s) ltac:(done)) as [Hl Hw].
  rewrite Hw. unfold slice_from. rewrite Hl, Nat2Z.id.
  unfold nextWord. simpl firstUpperAfterHead.
  pose proof (findUpper_runs s 1) as Hruns.
  destruct (findUpper 1 s) as [q|] eqn:Hq.
  - apply findUpper_bounds in Hq. destruct Hruns as [Htake Hdrop].
    destruct q as [|q]; [lia|]. replace (S q - 1)%nat with q in * by lia.
    simpl. rewrite Htake. f_equal.
    rewrite <- Htake, string_take_length by lia. by rewrite Hdrop.
  - destruct Hruns as [-> ->]. f_equal. simpl.
    clear. induction s as [|d s IH]; [done|]. done.
Qed.

Lemma Split_single w sep :
  allBytes (λ c, negb (bool_decide (c = sep))) w = true → Split w sep = [w].
Proof.
  induction w as [|c w IH]; [done|]. simpl. intros [Hc Hw]%andb_true_iff.
  apply negb_true_iff in Hc. by rewrite Hc, IH.
Qed.

Lemma Split_word w rest sep :
  allBytes (λ c, negb (bool_decide (c = sep))) w = true →
  Split (w +:+ String sep rest) sep = w :: Split rest sep.
Proof.
  induction w as [|c w IH]; simpl.
  - intros _. by rewrite bool_decide_eq_true_2.
  - intros [Hc Hw]%andb_true_iff. apply negb_true_iff in Hc.
    change (String c w +:+ String sep rest) with (String c (w +:+ String sep rest)).
    simpl. by rewrite Hc, IH.
Qed.

(** Cutting a joined text at the separator gives the words back. *)
Lemma Split_Join words sep :
  words ≠ [] →
  Forall (λ w, allBytes (λ c, negb (bool_decide (c = sep))) w = true) words →
  Split (Join words (String sep "")) sep = words.
Proof.
  intros Hne Hwords. induction Hwords as [|w words Hw Hwords IH]; [done|].
  rewrite Join_cons. destruct words as [|w' words].
  - rewrite string_app_nil_r. by apply Split_single.
  - change (String sep "" +:+ Join (w' :: words) (String sep ""))
      with (String sep (Join (w' :: words) (String sep ""))).
    rewrite Split_word by done. by rewrite IH.
Qed.

Lemma isAlnum_no_separator c : isAlnum c = true → isSeparator c = false.
Proof. by destruct c as [[] [] [] [] [] [] [] []]. Qed.

Lemma isAlnum_lower_byte c : isAlnum c = true → isAlnum (lower_byte c) = true.
Proof. by destruct c as [[] [] [] [] [] [] [] []]. Qed.

Lemma isAlnum_no_underscore c :
  isAlnum c = true → negb (bool_decide (lower_byte c = "_"%char)) = true.
Proof. by destruct c as [[] [] [] [] [] [] [] []]. Qed.

Lemma title_lower_byte c : title_byte (lower_byte c) = title_byte c.
Proof. by destruct c as [[] [] [] [] [] [] [] []]. Qed.

Lemma lower_title_byte c : lower_byte (title_byte c) = lower_byte c.
Proof. by destruct c as [[] [] [] [] [] [] [] []]. Qed.

Lemma title_byte_upper c : IsUpper c = true → title_byte c = c.
Proof. by destruct c as [[] [] [] [] [] [] [] []]. Qed.

Lemma Title_go_alnum prev w :
  isSeparator prev = false → allBytes isAlnum w = true → Title_go prev w = w.
Proof.
  revert prev; induction w as [|c w IH]; intros prev Hprev; [done|]. simpl.
  intros [Hc Hw]%andb_true_iff. rewrite Hprev. f_equal.
  apply IH; [by apply isAlnum_no_separator|done].
Qed.

Lemma lowerRun_alnum s : allBytes isAlnum s = true → allBytes isAlnum (lowerRun s) = true.
Proof.
  induction s as [|c s IH]; [done|]. simpl. intros [Hc Hs]%andb_true_iff.
  destruct (IsUpper c); [done|]. simpl. by rewrite Hc, IH.
Qed.

Lemma afterRun_alnum s : allBytes isAlnum s = true → allBytes isAlnum (afterRun s) = true.
Proof.
  induction s as [|c s IH]; [done|]. simpl. intros [Hc Hs]%andb_true_iff.
  destruct (IsUpper c); [|by apply IH]. simpl. by rewrite Hc, Hs.
Qed.

Lemma lowerRun_not_upper s : allBytes (λ c, negb (IsUpper c)) (lowerRun s) = true.
Proof.
  induction s as [|c s IH]; [done|]. simpl.
  destruct (IsUpper c) eqn:Hc; [done|]. simpl. by rewrite Hc, IH.
Qed.

Lemma capitalized_afterRun s : capitalized (afterRun s) = afterRun s.
Proof.
  induction s as [|c s IH]; [done|]. simpl.
  destruct (IsUpper c) eqn:Hc; [|done]. simpl. by rewrite title_byte_upper.
Qed.

Lemma Title_alnum s : allBytes isAlnum s = true → Title s = capitalized s.
Proof.
  destruct s as [|c s]; [done|]. simpl. intros [Hc Hs]%andb_true_iff.
  unfold Title. simpl. f_equal. apply Title_go_alnum; [by apply isAlnum_no_separator|done].
Qed.

Lemma ToLower_alnum s : allBytes isAlnum s = true → allBytes isAlnum (ToLower s) = true.
Proof.
  induction s as [|c s IH]; [done|]. simpl. intros [Hc Hs]%andb_true_iff.
  by rewrite isAlnum_lower_byte, IH.
Qed.

Lemma deriveWords_titles (n : nat) :
  ∀ s, String.length s = n → allBytes isAlnum s = true →
       Join (map Title (deriveWords s)) "" = capitalized s
       ∧ Forall (λ w, allBytes (λ c, negb (bool_decide (c = "_"%char))) w = true)
           (deriveWords s).
Proof.
  induction n as [n IH] using lt_wf_ind. intros s Hn Hs.
  destruct s as [|c s]; [by simp deriveWords|].
  rewrite deriveWords_cons. simpl in Hs. apply andb_true_iff in Hs as [Hc Hs].
  destruct (IH (String.length (afterRun s))) with (s := afterRun s) as [Hjoin Hwords].
  { pose proof (afterRun_length s). simpl in Hn. lia. }
  { done. }
  { by apply afterRun_alnum. }
  split.
  - rewrite map_cons, Join_cons.
    assert (Title (ToLower (String c (lowerRun s))) = String (title_byte c) (lowerRun s)) as ->.
    { rewrite Title_alnum by (apply ToLower_alnum; simpl; by rewrite Hc, lowerRun_alnum).
      simpl. rewrite title_lower_byte. f_equal.
      apply ToLower_none, lowerRun_not_upper. }
    assert (match map Title (deriveWords (afterRun s)) with
            | [] => ""
            | _ :: _ => "" +:+ Join (map Title (deriveWords (afterRun s))) ""
            end = afterRun s) as ->.
    { etrans; [|exact (eq_trans Hjoin (capitalized_afterRun s))].
      by destruct (map Title (deriveWords (afterRun s))). }
    change (String (title_byte c) (lowerRun s +:+ afterRun s) = String (title_byte c) s).
    by rewrite lowerRun_afterRun.
  - constructor; [|done]. simpl. rewrite isAlnum_no_underscore by done. simpl.
    pose proof (lowerRun_alnum s Hs) as Hrun. clear -Hrun.
    induction (lowerRun s) as [|d r IH]; [done|]. simpl in *.
    apply andb_true_iff in Hrun as [Hd Hr]. by rewrite isAlnum_no_underscore, IH.
Qed.

(** X13.  For a model-side name of ASCII letters and digits, [ToGoName]
    turns the name that [augmentAttribute] derives back into the model-side
    name with its first byte in title case; a name that starts with an upper
    case letter comes back as it was. *)
Theorem ToGoName_of_derived_name (s : string) :
  allBytes isAlnum s = true →
  ToGoName (deriveTfName s) = capitalized s
  ∧ ((∀ c rest, s = String c rest → IsUpper c = true) → ToGoName (deriveTfName s) = s).
Proof.
  intros Hs.
  assert (ToGoName (deriveTfName s) = capitalized s) as Hround.
  { destruct (deriveWords_titles _ s eq_refl Hs) as [Hjoin Hwords].
    unfold ToGoName, deriveTfName.
    destruct s as [|c s]; [by simp deriveWords|].
    rewrite (Split_Join _ "_"%char); [done| |done].
    by rewrite deriveWords_cons. }
  split; [done|]. intros Hhead. rewrite Hround.
  destruct s as [|c s]; [done|]. simpl. by rewrite title_byte_upper by eauto.
Qed.

Lemma ToGoName_of_derived_name_witness :
  allBytes isAlnum "HTTPServer2" = true
  ∧ ToGoName (deriveTfName "HTTPServer2") = "HTTPServer2".
Proof.
  split; [reflexivity|].
  apply (ToGoName_of_derived_name "HTTPServer2" eq_refl).
  intros c rest [= <- _]. reflexivity.
Defined.

Lemma ToLower_Title_go prev w : ToLower (Title_go prev w) = ToLower w.
Proof.
  revert prev; induction w as [|c w IH]; intros prev; [done|]. simpl.
  rewrite IH. f_equal. destruct (isSeparator prev); [apply lower_title_byte|done].
Qed.

Lemma ToLower_Join words sep :
  ToLower (Join words sep) = Join (map ToLower words) (ToLower sep).
Proof.
  induction words as [|w words IH]; [done|].
  rewrite Join_cons. simpl map. rewrite Join_cons, ToLower_app. f_equal.
  destruct words as [|w' words]; [done|]. by rewrite ToLower_app, IH.
Qed.

Lemma lower_byte_underscore c :
  negb (bool_decide (c = "_"%char)) = true → negb (bool_decide (lower_byte c = "_"%char)) = true.
Proof. by destruct c as [[] [] [] [] [] [] [] []]. Qed.

(** The words of a name without underscore hold no underscore. *)
Lemma snake_words_no_underscore s :
  allBytes (λ c, negb (bool_decide (c = "_"%char))) s = true →
  Forall (λ w, allBytes (λ c, negb (bool_decide (c = "_"%char))) w = true)
    (map ToLower (Fields (replaceHyphens s))).
Proof.
  intros Hs. apply Forall_fmap.
  assert (allBytes (λ c, negb (bool_decide (c = "_"%char))) (replaceHyphens s) = true) as Hr.
  { clear -Hs. induction s as [|c s IH]; [done|]. simpl in *.
    apply andb_true_iff in Hs as [Hc Hs]. rewrite (IH Hs), andb_true_r.
    destruct (decide (c = "-"%char)) as [->|Hne]; [done|].
    by rewrite (bool_decide_eq_false_2 (c = "-"%char)). }
  eapply Forall_impl; [apply (Fields_go_fields _ None _ Hr); by intros|].
  intros w [_ Hw]. simpl. clear -Hw.
  induction w as [|c w IH]; [done|]. simpl in *.
  apply andb_true_iff in Hw as [Hc Hw]. rewrite (IH Hw), andb_true_r.
  apply andb_true_iff in Hc as [_ Hc]. by apply lower_byte_underscore.
Qed.

Lemma Fields_ToLower s :
  Fields (replaceHyphens (ToLower s)) = map ToLower (Fields (replaceHyphens s)).
Proof. rewrite replaceHyphens_ToLower. unfold Fields. by rewrite (Fields_go_ToLower None). Qed.

(** X15.  For a name of ASCII text, [CamelCase] and [SnakeCase] work on the
    same words, the fields of the name with its hyphens read as spaces: the
    result of [SnakeCase] is these words in lower case joined by
    underscores, and the result of [CamelCase], in lower case, is the same
    words put together.  When the name holds no underscore, [ToGoName] turns
    the snake-cased name into the camel-cased lower-cased name. *)
Theorem CamelCase_SnakeCase_same_words (s : string) :
  isASCII s = true →
  SnakeCase s = Join (map ToLower (Fields (replaceHyphens s))) "_"
  ∧ ToLower (CamelCase s) = Join (map ToLower (Fields (replaceHyphens s))) ""
  ∧ (allBytes (λ c, negb (bool_decide (c = "_"%char))) s = true →
     ToGoName (SnakeCase s) = CamelCase (ToLower s)).
Proof.
  intros _. split; [done|]. split.
  - unfold CamelCase. rewrite ToLower_Join, map_map. simpl. f_equal.
    apply map_ext. intros w. apply ToLower_Title_go.
  - intros Hs. unfold ToGoName, CamelCase, SnakeCase. rewrite Fields_ToLower.
    pose proof (snake_words_no_underscore s Hs) as Hwords.
    destruct (map ToLower (Fields (replaceHyphens s))) as [|w words] eqn:Hlw; [done|].
    by rewrite (Split_Join (w :: words) "_"%char).
Qed.

Lemma CamelCase_SnakeCase_same_words_witness :
  (isASCII "Access-Control  Policy" = true
   ∧ allBytes (λ c, negb (bool_decide (c = "_"%char))) "Access-Control  Policy" = true)
  ∧ ToGoName (SnakeCase "Access-Control  Policy") = "AccessControlPolicy"
  ∧ ToGoName (SnakeCase "Access-Control  Policy") = CamelCase (ToLower "Access-Control  Policy").
Proof.
  split; [split; reflexivity|]. split; [reflexivity|].
  exact (proj2 (proj2 (CamelCase_SnakeCase_same_words "Access-Control  Policy" eq_refl)) eq_refl).
Defined.

Lemma underscored_runs s :
  underscored s =
    lowerRun s +:+ match afterRun s with
                   | "" => ""
                   | String d rest => String "_"%char (String (lower_byte d) (underscored rest))
                   end.
Proof.
  induction s as [|c s IH]; [done|]. simpl. destruct (IsUpper c) eqn:Hc; [done|].
  by rewrite IH.
Qed.

Lemma afterRun_head s d rest : afterRun s = String d rest → IsUpper d = true.
Proof.
  induction s as [|c s IH]; [done|]. simpl. destruct (IsUpper c) eqn:Hc; [|done].
  by intros [= <- _].
Qed.

Lemma lower_byte_not_upper_id c : IsUpper c = false → lower_byte c = c.
Proof. unfold lower_byte. by intros ->. Qed.

Lemma deriveTfName_underscored (s : string) :
  deriveTfName s =
    match s with
    | "" => ""
    | String c rest => String (lower_byte c) (underscored rest)
    end.
Proof.
  remember (String.length s) as n eqn:Hn. revert s Hn.
  induction n as [n IH] using lt_wf_ind. intros s ->.
  destruct s as [|c s]; [done|].
  unfold deriveTfName. rewrite deriveWords_cons, Join_cons.
  change (ToLower (String c (lowerRun s))) with (String (lower_byte c) (ToLower (lowerRun s))).
  rewrite (ToLower_none (lowerRun s)) by apply lowerRun_not_upper.
  rewrite underscored_runs.
  change (String (lower_byte c) (lowerRun s) +:+ ?x) with (String (lower_byte c) (lowerRun s +:+ x)).
  do 2 f_equal.
  pose proof (afterRun_length s) as Hlen.
  destruct (afterRun s) as [|d rest] eqn:Hafter; [by simp deriveWords|].
  specialize (IH (String.length (String d rest)) ltac:(simpl in *; lia) (String d rest) eq_refl).
  unfold deriveTfName in IH. rewrite IH.
  by destruct (deriveWords (String d rest)).
Qed.

(** X16.  The derived name in closed form, for a model-side name of ASCII
    text: the name with its first byte in lower case, and with every later
    upper case letter replaced by an underscore and the letter in lower
    case. *)
Theorem deriveTfName_closed_form (s : string) :
  isASCII s = true →
  deriveTfName s =
    match s with
    | "" => ""
    | String c rest => String (lower_byte c) (underscored rest)
    end.
Proof. intros _. apply deriveTfName_underscored. Qed.

Lemma deriveTfName_closed_form_witness :
  isASCII "HTTPServer" = true
  ∧ deriveTfName "HTTPServer" = String (lower_byte "H") (underscored "TTPServer").
Proof. split; [reflexivity|]. exact (deriveTfName_closed_form "HTTPServer" eq_refl). Defined.

Lemma Split_pieces s sep :
  Forall (λ w, allBytes (λ c, negb (bool_decide (c = sep))) w = true) (Split s sep).
Proof.
  induction s as [|c s IH]; simpl; [by repeat constructor|].
  case_bool_decide as Hc; [by constructor|].
  destruct (Split s sep) as [|piece pieces]; [repeat constructor; simpl|].
  - by rewrite bool_decide_eq_false_2.
  - apply Forall_cons in IH as [Hpiece Hpieces]. constructor; [|done]. simpl.
    by rewrite bool_decide_eq_false_2, Hpiece.
Qed.

Lemma title_byte_underscore c : title_byte c = "_"%char → c = "_"%char.
Proof. by destruct c as [[] [] [] [] [] [] [] []]. Qed.

Lemma Title_go_no_underscore prev w :
  allBytes (λ c, negb (bool_decide (c = "_"%char))) w = true →
  allBytes (λ c, negb (bool_decide (c = "_"%char))) (Title_go prev w) = true.
Proof.
  revert prev; induction w as [|c w IH]; intros prev; [done|]. simpl.
  intros [Hc Hw]%andb_true_iff. rewrite IH, andb_true_r by done.
  destruct (isSeparator prev); [|done].
  apply negb_true_iff, bool_decide_eq_false. intros Htitle%title_byte_underscore.
  apply negb_true_iff, bool_decide_eq_false in Hc. done.
Qed.

(** X17.  The result of [ToGoName] holds no underscore: the underscores of
    the name are where it is cut, and the pieces are put together without a
    separator. *)
Theorem ToGoName_no_underscore (s : string) :
  allBytes (λ c, negb (bool_decide (c = "_"%char))) (ToGoName s) = true.
Proof.
  unfold ToGoName. apply Join_allBytes; [done|]. apply Forall_fmap.
  eapply Forall_impl; [apply Split_pieces|].
  intros w Hw. by apply Title_go_no_underscore.
Qed.


Lemma provider_names_follow_files_witness :
  Forall2 (λ file name, ∃ content config,
             sampleFS !! (definitionsPath +:+ file) = Some content
             ∧ sampleDecode content = Some config ∧ name = Name config)
    ["host.yaml"] ["Host"].
Proof.
  refine (provider_names_follow_files string (λ _ text, Some text) (λ text _, Some text)
            sampleDecode ["host.yaml"]
            [mkConfig "Host" "" false false false false "" "" "" "" false false [] [] ""]
            ["Host"] sampleFS sampleFS (outcome_fs sampleRun) _ _).
  - vm_compute. reflexivity.
  - vm_compute. reflexivity.
Defined.

Lemma main_writes_output_paths_only_witness :
  os_ReadDir definitionsPath sampleFS = Done ["host.yaml"] sampleFS
  ∧ (is_Some (sampleFS !! "./gen/templates/model.go") →
     is_Some (outcome_fs (main string (λ _ text, Some text) (λ text _, Some text)
                            sampleDecode sampleFS) !! "./gen/templates/model.go")).
Proof.
  assert (os_ReadDir definitionsPath sampleFS = Done ["host.yaml"] sampleFS) as Hdir
    by (vm_compute; reflexivity).
  split; [exact Hdir|].
  exact (proj1 (main_writes_output_paths_only string (λ _ text, Some text)
                  (λ text _, Some text) sampleDecode sampleFS ["host.yaml"]
                  "./gen/templates/model.go" Hdir)).
Defined.
